(** * Git-log reconciliation and the recursive-call query

    A shallow embedding of the two notebooks of the repository:

    - the git-log notebook, which reads a tab-separated [git log --numstat]
      export with [pd.read_csv], forward-fills the commit columns, joins them
      to the file-statistic columns and drops the incomplete rows;
    - the jQAssistant notebook, which sends one Cypher pattern query to a
      graph database.

    The pandas operations the first notebook calls are modelled in [Pandas],
    the notebook's own pipeline in [GitLog], the query and the property
    graph it is matched against in [CallGraph].  The definitions come first;
    the facts about them follow, the git-log ones through a row-by-row
    account of the column-wise pipeline. *)

From Stdlib Require Import Ascii String List ZArith DecimalString Bool Arith Lia Sorted.
Import ListNotations.
Open Scope string_scope.
Open Scope list_scope.

(** ** The pandas operations used by the notebook *)

Module Pandas.

(** A binary64 number [Fnum * 2 ^ Fexp]. *)
Record float64 := mkFloat { Fnum : Z; Fexp : Z }.

(** What a non-missing cell holds: an [int64], a [float64] or a Python
    string (a cell of an [object] column). *)
Inductive value : Type :=
| VInt (z : Z)
| VFloat (x : float64)
| VStr (s : string).

(** A cell; [None] is the missing value ([NaN]), what [isna] reports. *)
Definition cell := option value.
Definition column := list cell.

Definition isna (c : cell) : bool :=
  match c with None => true | Some _ => false end.
Definition notna (c : cell) : bool := negb (isna c).

(** The exceptions the operations below can raise. *)
Inductive error : Type :=
| KeyError (label : string)
| ValueError (msg : string).

Inductive result (A : Type) : Type :=
| Ok (a : A)
| Raise (e : error).
Arguments Ok {A} a.
Arguments Raise {A} e.

Definition bind {A B} (m : result A) (k : A -> result B) : result B :=
  match m with Ok a => k a | Raise e => Raise e end.

Notation "x <- m ;; k" := (bind m (fun x => k))
  (at level 61, m at next level, right associativity).

(** A frame: the row labels and the named columns, in column order. *)
Record DataFrame := mkFrame {
  index : list nat;
  columns : list (string * column)
}.

(** [df[names]]: the listed columns, in the listed order; [KeyError] on a
    name the frame does not have.  (For frames whose column names are
    distinct, as those [read_csv] builds from distinct [names]: under a
    repeated name pandas selects every column that carries it.) *)
Fixpoint lookup_column (cols : list (string * column)) (name : string)
  : result column :=
  match cols with
  | [] => Raise (KeyError name)
  | (n, c) :: rest => if String.eqb n name then Ok c else lookup_column rest name
  end.

Fixpoint select_columns (cols : list (string * column)) (names : list string)
  : result (list (string * column)) :=
  match names with
  | [] => Ok []
  | n :: ns =>
      c <- lookup_column cols n ;;
      cs <- select_columns cols ns ;;
      Ok ((n, c) :: cs)
  end.

Definition getitem (df : DataFrame) (names : list string) : result DataFrame :=
  cs <- select_columns (columns df) names ;;
  Ok (mkFrame (index df) cs).

(** [fillna(method='ffill')]: in every column, a missing cell takes the last
    valid cell above it in the same column; leading missing cells stay
    missing. *)
Fixpoint ffill_from (last : cell) (c : column) : column :=
  match c with
  | [] => []
  | x :: c' =>
      let v := match x with Some _ => x | None => last end in
      v :: ffill_from v c'
  end.

Definition ffill (c : column) : column := ffill_from None c.

Definition fillna_ffill (df : DataFrame) : DataFrame :=
  mkFrame (index df) (map (fun nc => (fst nc, ffill (snd nc))) (columns df)).

(** [left.join(right)]: a left join on the index with empty suffixes.  It
    raises when a column name occurs on both sides.  Every row of [left] is
    kept, in order; the cells of [right] are taken from the row of [right]
    carrying the same label, and are missing when there is none.  (Labels
    are unique in the frames joined here: they come from the range index
    [read_csv] assigns.) *)
Definition overlap (l r : list string) : bool :=
  existsb (fun n => existsb (String.eqb n) r) l.

Fixpoint position (label : nat) (idx : list nat) : option nat :=
  match idx with
  | [] => None
  | l :: idx' =>
      if Nat.eqb l label then Some 0
      else option_map S (position label idx')
  end.

Definition reindex (from : list nat) (c : column) (to : list nat) : column :=
  map (fun l => match position l from with
                | Some p => nth p c None
                | None => None
                end) to.

Definition join (left right : DataFrame) : result DataFrame :=
  if overlap (map fst (columns left)) (map fst (columns right))
  then Raise (ValueError "columns overlap but no suffix specified")
  else Ok (mkFrame (index left)
             (columns left ++
              map (fun nc => (fst nc, reindex (index right) (snd nc) (index left)))
                  (columns right))).

(** [dropna()]: the rows in which no column is missing, with their labels. *)
Definition row_at (df : DataFrame) (p : nat) : list cell :=
  map (fun nc => nth p (snd nc) None) (columns df).

Definition notna_mask (df : DataFrame) : list bool :=
  map (fun p => forallb notna (row_at df p)) (seq 0 (length (index df))).

Fixpoint take_mask {A} (mask : list bool) (l : list A) : list A :=
  match mask, l with
  | b :: mask', x :: l' =>
      if b then x :: take_mask mask' l' else take_mask mask' l'
  | _, _ => []
  end.

Definition dropna (df : DataFrame) : DataFrame :=
  let mask := notna_mask df in
  mkFrame (take_mask mask (index df))
          (map (fun nc => (fst nc, take_mask mask (snd nc))) (columns df)).

(** [itertuples()]: the rows of a frame, each with its label. *)
Definition itertuples (df : DataFrame) : list (nat * list cell) :=
  map (fun p => (nth p (index df) 0, row_at df p)) (seq 0 (length (index df))).

(** *** Type inference of [read_csv]

    A field of the file, as the tokenizer classifies it before the column
    types are chosen: an empty field (or one of the NA markers), an integer
    written as its plain decimal, or any other text.  The model covers
    files whose text fields are not numbers, booleans or NA markers
    themselves (a field [1.5] would make its column [float64]), whose
    integers fit [int64], and which [read_csv] types in one piece; the
    facts below say so where they depend on it. *)
Inductive token : Type :=
| Empty
| Int (z : Z)
| Text (s : string).

Inductive dtype : Type := Int64 | Float64 | Object.

Definition is_int (t : token) : bool :=
  match t with Int _ => true | _ => false end.

Definition is_numeric (t : token) : bool :=
  match t with Int _ | Empty => true | Text _ => false end.

(** The column type: [int64] when every field is an integer, [float64]
    when the only other fields are empty ones (an [int64] column cannot
    hold [NaN]), [object] otherwise. *)
Definition infer_dtype (col : list token) : dtype :=
  if forallb is_int col then Int64
  else if forallb is_numeric col then Float64
  else Object.

(** The [binary64] number nearest to an integer, ties to even: the integer
    itself up to [2 ^ 53] in magnitude, a 53-bit significand and an exponent
    beyond. *)
Definition float64_of_int (z : Z) : float64 :=
  let a := Z.abs z in
  if (a <=? 2 ^ 53)%Z then mkFloat z 0
  else
    let e := (Z.log2 a - 52)%Z in
    let q := Z.shiftr a e in
    let r := (a - Z.shiftl q e)%Z in
    let half := Z.shiftl 1 (e - 1) in
    let q' := if (r <? half)%Z then q
              else if (half <? r)%Z then (q + 1)%Z
              else if Z.even q then q else (q + 1)%Z in
    mkFloat (Z.sgn z * q') e.

(** The integer a [float64] with a non-negative exponent stands for. *)
Definition F2Z (x : float64) : Z := (Fnum x * 2 ^ Fexp x)%Z.

Definition decimal (z : Z) : string := NilZero.string_of_int (Z.to_int z).

(** A field in a column of the given type.  In a column that has an empty
    field the integers are parsed as [int64] first, the empty fields held
    as the smallest [int64], and the column then cast to [float64] with
    every cell equal to that value made missing: an integer field
    [-2 ^ 63] of such a column, or one that rounds to it, is read as
    missing too. *)
Definition convert (d : dtype) (t : token) : cell :=
  match t with
  | Empty => None
  | Int z =>
      match d with
      | Int64 => Some (VInt z)
      | Float64 =>
          let x := float64_of_int z in
          if (F2Z x =? - 2 ^ 63)%Z then None else Some (VFloat x)
      | Object => Some (VStr (decimal z))
      end
  | Text s => Some (VStr s)
  end.

(** An integer field that fits [int64] and is not rounded to its smallest
    value as a [float64]. *)
Definition int64_field (t : token) : Prop :=
  match t with
  | Int z => (- 2 ^ 63 + 512 < z < 2 ^ 63)%Z
  | _ => True
  end.

Definition infer_types (col : list token) : column :=
  map (convert (infer_dtype col)) col.






(** Python's [==] on cell values: numbers compare by value, whether held as
    [int64] or [float64]; a string equals only the same string. *)
Definition number (v : value) : option float64 :=
  match v with
  | VInt z => Some (mkFloat z 0)
  | VFloat x => Some x
  | VStr _ => None
  end.

Definition float64_eqb (x y : float64) : bool :=
  let e := Z.min (Fexp x) (Fexp y) in
  (Fnum x * 2 ^ (Fexp x - e) =? Fnum y * 2 ^ (Fexp y - e))%Z.

Definition value_eqb (a b : value) : bool :=
  match a, b with
  | VStr s, VStr s' => String.eqb s s'
  | _, _ =>
      match number a, number b with
      | Some x, Some y => float64_eqb x y
      | _, _ => false
      end
  end.

Definition cell_eqb (a b : cell) : bool :=
  match a, b with
  | Some x, Some y => value_eqb x y
  | _, _ => false
  end.

Fixpoint tuple_eqb (s t : list cell) : bool :=
  match s, t with
  | [], [] => true
  | a :: s', b :: t' => cell_eqb a b && tuple_eqb s' t'
  | _, _ => false
  end.

(** A frame as pandas holds one, with distinct column names and labels:
    every column is as long as the index. *)
Definition proper (df : DataFrame) : Prop :=
  NoDup (map fst (columns df)) /\
  NoDup (index df) /\
  Forall (fun nc => length (snd nc) = length (index df)) (columns df).

(** [df.loc[label]] as an option: the row carrying the label. *)
Definition loc (df : DataFrame) (label : nat) : option (list cell) :=
  option_map snd (find (fun t => Nat.eqb (fst t) label) (itertuples df)).

End Pandas.

(** ** The git-log notebook *)

Module GitLog.
Import Pandas.

(** One line of the export after the split on tabs: seven fields, each
    possibly missing. *)
Record row := mkRow {
  additions : cell;
  deletions : cell;
  filename : cell;
  sha : cell;
  timestamp : cell;
  author : cell;
  message : cell
}.

(** A metadata line: [\t\t\t%h\t%at\t%aN\t%s]. *)
Definition M (sha timestamp author message : value) : row :=
  mkRow None None None (Some sha) (Some timestamp) (Some author) (Some message).

(** A statistic line of [--numstat]. *)
Definition S (additions deletions filename : value) : row :=
  mkRow (Some additions) (Some deletions) (Some filename) None None None None.

Definition file_names : list string := ["additions"; "deletions"; "filename"].
Definition meta_names : list string := ["sha"; "timestamp"; "author"; "message"].

(** The table [commits_raw] of the notebook, holding the given lines: a
    range index and the seven named columns. *)
Definition commits_raw (rows : list row) : DataFrame :=
  mkFrame (seq 0 (length rows))
    [ ("additions", map additions rows);
      ("deletions", map deletions rows);
      ("filename", map filename rows);
      ("sha", map sha rows);
      ("timestamp", map timestamp rows);
      ("author", map author rows);
      ("message", map message rows) ].

(** One line of the export as [read_csv] tokenizes it on tabs: the seven
    fields, in file order. *)
Record fields := mkFields {
  f_additions : token;
  f_deletions : token;
  f_filename : token;
  f_sha : token;
  f_timestamp : token;
  f_author : token;
  f_message : token
}.

(** [pd.read_csv(StringIO(git_log), sep="\t", header=None, names=[...])]:
    a range index and the seven named columns, each of the type inferred
    from its fields. *)
Definition read_csv (lines : list fields) : DataFrame :=
  mkFrame (seq 0 (length lines))
    [ ("additions", infer_types (map f_additions lines));
      ("deletions", infer_types (map f_deletions lines));
      ("filename", infer_types (map f_filename lines));
      ("sha", infer_types (map f_sha lines));
      ("timestamp", infer_types (map f_timestamp lines));
      ("author", infer_types (map f_author lines));
      ("message", infer_types (map f_message lines)) ].

(** [commits_raw[['additions', 'deletions', 'filename']]
       .join(commits_raw[['sha', 'timestamp', 'author', 'message']]
       .fillna(method='ffill'))] *)
Definition commits (commits_raw : DataFrame) : result DataFrame :=
  files <- getitem commits_raw file_names ;;
  meta <- getitem commits_raw meta_names ;;
  join files (fillna_ffill meta).

(** [commits = commits.dropna()] *)
Definition reconcile (commits_raw : DataFrame) : result DataFrame :=
  c <- commits commits_raw ;;
  Ok (dropna c).

(** *** The rows of the pipeline, line by line

    The same computation told row by row: the metadata cells carried from
    the lines above, the joined row of a line, and the rows that survive. *)

Definition blank : row := mkRow None None None None None None None.

Definition cells (r : row) : list cell :=
  [additions r; deletions r; filename r; sha r; timestamp r; author r; message r].

Definition file_cells (r : row) : list cell :=
  [additions r; deletions r; filename r].

Definition meta_cells (r : row) : list cell :=
  [sha r; timestamp r; author r; message r].

Definition complete (r : row) : bool := forallb notna (cells r).

Definition fill1 (last x : cell) : cell :=
  match x with Some _ => x | None => last end.

Definition fill_meta (last r : row) : row :=
  mkRow (additions r) (deletions r) (filename r)
        (fill1 (sha last) (sha r)) (fill1 (timestamp last) (timestamp r))
        (fill1 (author last) (author r)) (fill1 (message last) (message r)).

Fixpoint fill_rows (last : row) (rows : list row) : list row :=
  match rows with
  | [] => []
  | r :: rs => let r' := fill_meta last r in r' :: fill_rows r' rs
  end.

Definition labelled (start : nat) (rows : list row) : list (nat * row) :=
  combine (seq start (length rows)) rows.

Definition records_from (start : nat) (last : row) (rows : list row)
  : list (nat * row) :=
  filter (fun ir => complete (snd ir)) (labelled start (fill_rows last rows)).

Definition records (rows : list row) : list (nat * row) :=
  records_from 0 blank rows.

Definition frame_of (irs : list (nat * row)) : DataFrame :=
  mkFrame (map fst irs)
    [ ("additions", map (fun ir => additions (snd ir)) irs);
      ("deletions", map (fun ir => deletions (snd ir)) irs);
      ("filename", map (fun ir => filename (snd ir)) irs);
      ("sha", map (fun ir => sha (snd ir)) irs);
      ("timestamp", map (fun ir => timestamp (snd ir)) irs);
      ("author", map (fun ir => author (snd ir)) irs);
      ("message", map (fun ir => message (snd ir)) irs) ].

(** The last valid cell of a column, read from the top; missing when there
    is none. *)
Fixpoint last_valid (col : column) : cell :=
  match col with
  | [] => None
  | x :: col' =>
      match last_valid col' with Some v => Some v | None => x end
  end.

(** The cell of column [f] that line [i] carries after the forward fill:
    the last valid cell of the column among the lines [0..i]. *)
Definition carried (f : row -> cell) (rows : list row) (i : nat) : cell :=
  last_valid (map f (firstn (Datatypes.S i) rows)).

(** The joined row of line [i]: its own file cells and the carried commit
    cells. *)
Definition joined (rows : list row) (i : nat) : row :=
  let r := nth i rows blank in
  mkRow (additions r) (deletions r) (filename r)
        (carried sha rows i) (carried timestamp rows i)
        (carried author rows i) (carried message rows i).

(** Cell [c] is the cell of column [f] in the nearest line at or above
    line [i] in which that column is valid. *)
Definition nearest_valid (f : row -> cell) (rows : list row) (i : nat)
    (c : cell) : Prop :=
  exists j v,
    j <= i /\ f (nth j rows blank) = Some v /\
    (forall k, j < k <= i -> f (nth k rows blank) = None) /\
    c = Some v.

(** *** The two shapes of a line *)

Definition is_metadata (r : row) : bool :=
  forallb notna (meta_cells r) && forallb isna (file_cells r).

Definition is_statistic (r : row) : bool :=
  forallb notna (file_cells r) && forallb isna (meta_cells r).

Definition well_formed (r : row) : bool := is_metadata r || is_statistic r.

(** The same two shapes on the fields of the file: a metadata line carries
    an integer timestamp ([%at]) between the commit id and the author. *)
Definition present (t : token) : bool :=
  match t with Empty => false | _ => true end.

Definition is_metadata_line (l : fields) : bool :=
  negb (present (f_additions l)) && negb (present (f_deletions l)) &&
  negb (present (f_filename l)) &&
  present (f_sha l) && is_int (f_timestamp l) &&
  present (f_author l) && present (f_message l).

Definition is_statistic_line (l : fields) : bool :=
  present (f_additions l) && present (f_deletions l) &&
  present (f_filename l) &&
  negb (present (f_sha l)) && negb (present (f_timestamp l)) &&
  negb (present (f_author l)) && negb (present (f_message l)).


Definition no_fields : fields :=
  mkFields Empty Empty Empty Empty Empty Empty Empty.

(** The lines of the specification's example, as fields of the file. *)
Definition example_lines : list fields :=
  [ mkFields Empty Empty Empty (Int 1) (Int 100) (Text "A") (Text "x");
    mkFields (Int 2) (Int 1) (Text "f.txt") Empty Empty Empty Empty;
    mkFields Empty Empty Empty (Int 2) (Int 200) (Text "B") (Text "y");
    mkFields (Int 5) (Int 0) (Text "g.txt") Empty Empty Empty Empty ].

(** The rows of the table [read_csv] builds: every field converted to the
    type of its column. *)
Definition typed (lines : list fields) (l : fields) : row :=
  mkRow (convert (infer_dtype (map f_additions lines)) (f_additions l))
        (convert (infer_dtype (map f_deletions lines)) (f_deletions l))
        (convert (infer_dtype (map f_filename lines)) (f_filename l))
        (convert (infer_dtype (map f_sha lines)) (f_sha l))
        (convert (infer_dtype (map f_timestamp lines)) (f_timestamp l))
        (convert (infer_dtype (map f_author lines)) (f_author l))
        (convert (infer_dtype (map f_message lines)) (f_message l)).

(** Line [i] is a statistic line and a metadata line stands above it. *)
Definition statistic_after_metadata (rows : list row) (i : nat) : bool :=
  is_statistic (nth i rows blank) && existsb is_metadata (firstn i rows).

End GitLog.

(** ** The jQAssistant notebook: the recursive-call query

    [[
    MATCH (m:Method)-[:INVOKES*]->(m)
       -[:INVOKES]->(dbMethod:Method)
          <-[:DECLARES]-(dbClass:Class)
    WHERE dbClass.name = "Database"
    RETURN m.name as caller, dbClass.name + "." + dbMethod.name as dbMethod
    ]]

    The query is one Cypher path pattern.  Cypher matches a pattern against
    the property graph with every relationship of the graph used at most
    once in a match, and returns one row per match. *)

Module CallGraph.

(** The property graph: nodes with labels and a [name] property (missing
    when the node has none), relationships with a type and two ends. *)
Record Node := mkNode {
  nid : nat;
  labels : list string;
  name : option string
}.

Record Rel := mkRel {
  rid : nat;
  src : nat;
  rtype : string;
  tgt : nat
}.

Record Graph := mkGraph {
  nodes : list Node;
  rels : list Rel
}.

Definition Rel_eq_dec (r r' : Rel) : {r = r'} + {r <> r'}.
Proof. decide equality; try apply Nat.eq_dec; apply string_dec. Defined.

Definition used (r : Rel) (p : list Rel) : bool :=
  if in_dec Rel_eq_dec r p then true else false.

Definition has_label (l : string) (n : Node) : bool :=
  existsb (String.eqb l) (labels n).

Definition outgoing (g : Graph) (ty : string) (from : nat) : list Rel :=
  filter (fun r => Nat.eqb (src r) from && String.eqb (rtype r) ty) (rels g).

Definition incoming (g : Graph) (ty : string) (to : nat) : list Rel :=
  filter (fun r => Nat.eqb (tgt r) to && String.eqb (rtype r) ty) (rels g).

(** [-[:ty*]->]: the paths of one relationship or more, of type [ty],
    leaving node [from], that use no relationship twice and none of [seen];
    each with the node it ends in.  A path of distinct relationships is no
    longer than the graph has relationships, which bounds the search. *)
Fixpoint trails (fuel : nat) (g : Graph) (ty : string) (seen : list Rel)
    (from : nat) : list (list Rel * nat) :=
  match fuel with
  | 0 => []
  | Datatypes.S fuel' =>
      flat_map
        (fun r =>
           if used r seen then []
           else ([r], tgt r)
                :: map (fun pe => (r :: fst pe, snd pe))
                       (trails fuel' g ty (r :: seen) (tgt r)))
        (outgoing g ty from)
  end.

Definition var_length (g : Graph) (ty : string) (from : nat)
  : list (list Rel * nat) :=
  trails (length (rels g)) g ty [] from.

(** [+] on strings, [null] when an operand is. *)
Definition plus (a b : option string) : option string :=
  match a, b with
  | Some x, Some y => Some (x ++ y)%string
  | _, _ => None
  end.

(** [WHERE dbClass.name = "Database"]: true on that string only. *)
Definition name_is (n : Node) (s : string) : bool :=
  match name n with Some x => String.eqb x s | None => false end.

(** The rows of the query, one per match. *)
Definition query (g : Graph) : list (option string * option string) :=
  flat_map (fun m =>
  flat_map (fun pe =>
  flat_map (fun r =>
  flat_map (fun dbMethod =>
  flat_map (fun d =>
  flat_map (fun dbClass =>
    if has_label "Method" m
       && Nat.eqb (snd pe) (nid m)
       && negb (used r (fst pe))
       && Nat.eqb (nid dbMethod) (tgt r)
       && has_label "Method" dbMethod
       && negb (used d (r :: fst pe))
       && Nat.eqb (nid dbClass) (src d)
       && has_label "Class" dbClass
       && name_is dbClass "Database"
    then [(name m, plus (plus (name dbClass) (Some ".")) (name dbMethod))]
    else [])
    (nodes g))
    (incoming g "DECLARES" (nid dbMethod)))
    (nodes g))
    (outgoing g "INVOKES" (nid m)))
    (var_length g "INVOKES" (nid m)))
    (nodes g).

(** *** What the rows are *)

(** A relationship of type [ty] from [a] to [b]. *)
Definition edge (g : Graph) (ty : string) (a b : nat) (r : Rel) : Prop :=
  In r (rels g) /\ rtype r = ty /\ src r = a /\ tgt r = b.

(** A chain of relationships of type [ty] leading from [a] to [b]. *)
Fixpoint chain (g : Graph) (ty : string) (a : nat) (p : list Rel) (b : nat)
  : Prop :=
  match p with
  | [] => a = b
  | r :: p' => edge g ty a (tgt r) r /\ chain g ty (tgt r) p' b
  end.

(** [a] invokes [b] through one call or more. *)
Inductive invokes_plus (g : Graph) : nat -> nat -> Prop :=
| invokes_once a b r : edge g "INVOKES" a b r -> invokes_plus g a b
| invokes_more a b c r :
    edge g "INVOKES" a b r -> invokes_plus g b c -> invokes_plus g a c.

(** The pairs the description of the query speaks of: the name of a method
    that invokes itself through one call or more and also invokes a method
    declared by a class named Database, and the qualified name of that
    method. *)
Definition described (g : Graph) (caller dbMethod : option string) : Prop :=
  exists m dm dc r d,
    In m (nodes g) /\ has_label "Method" m = true /\
    invokes_plus g (nid m) (nid m) /\
    edge g "INVOKES" (nid m) (nid dm) r /\
    In dm (nodes g) /\ has_label "Method" dm = true /\
    edge g "DECLARES" (nid dc) (nid dm) d /\
    In dc (nodes g) /\ has_label "Class" dc = true /\
    name dc = Some "Database" /\
    caller = name m /\
    dbMethod = plus (Some "Database.") (name dm).

(** The pairs the pattern matches: as above, with the calls that lead the
    method back to itself pairwise distinct and distinct from the call into
    the database method. *)
Definition matched (g : Graph) (caller dbMethod : option string) : Prop :=
  exists m dm dc p r d,
    In m (nodes g) /\ has_label "Method" m = true /\
    p <> [] /\ chain g "INVOKES" (nid m) p (nid m) /\ NoDup p /\
    edge g "INVOKES" (nid m) (nid dm) r /\ ~ In r p /\
    In dm (nodes g) /\ has_label "Method" dm = true /\
    edge g "DECLARES" (nid dc) (nid dm) d /\
    In dc (nodes g) /\ has_label "Class" dc = true /\
    name dc = Some "Database" /\
    caller = name m /\
    dbMethod = plus (Some "Database.") (name dm).

(** A database method that calls itself, at one place. *)
Definition self_recursive_db : Graph :=
  mkGraph
    [ mkNode 0 ["Class"] (Some "Database");
      mkNode 1 ["Method"] (Some "loadThing") ]
    [ mkRel 0 0 "DECLARES" 1;
      mkRel 1 1 "INVOKES" 1 ].

(** The graph of the notebook's result: [loadParent] calls itself and
    [Database.loadThing]. *)
Definition notebook_graph : Graph :=
  mkGraph
    [ mkNode 0 ["Class"] (Some "Database");
      mkNode 1 ["Method"] (Some "loadThing");
      mkNode 2 ["Class"] (Some "Service");
      mkNode 3 ["Method"] (Some "loadParent") ]
    [ mkRel 0 0 "DECLARES" 1;
      mkRel 1 2 "DECLARES" 3;
      mkRel 2 3 "INVOKES" 3;
      mkRel 3 3 "INVOKES" 1 ].

(** The same call graph with no recursion in it: [loadParent] calls
    [Database.loadThing] and nothing calls itself. *)
Definition plain_graph : Graph :=
  mkGraph
    [ mkNode 0 ["Class"] (Some "Database");
      mkNode 1 ["Method"] (Some "loadThing");
      mkNode 2 ["Class"] (Some "Service");
      mkNode 3 ["Method"] (Some "loadParent") ]
    [ mkRel 0 0 "DECLARES" 1;
      mkRel 1 2 "DECLARES" 3;
      mkRel 3 3 "INVOKES" 1 ].

(** The graph of the notebook's result with the database class under
    another name that starts with Database. *)
Definition renamed_graph : Graph :=
  mkGraph
    [ mkNode 0 ["Class"] (Some "DatabaseImpl");
      mkNode 1 ["Method"] (Some "loadThing");
      mkNode 2 ["Class"] (Some "Service");
      mkNode 3 ["Method"] (Some "loadParent") ]
    [ mkRel 0 0 "DECLARES" 1;
      mkRel 1 2 "DECLARES" 3;
      mkRel 2 3 "INVOKES" 3;
      mkRel 3 3 "INVOKES" 1 ].

End CallGraph.

(** ** The git-log notebook: the plain log and its word count

    [[
    git_log = git_bin.execute('git log --pretty=format:"%h\t%at\t%aN\t%s"')
    commits = pd.read_csv(StringIO(git_log), sep="\t", header=None,
        names=['sha', 'timestamp', 'author', 'message'])
    commits['word_count'] = commits['message'].str.count(" ")+1
    ]] *)

Module CommitLog.
Import Pandas.



(** What the statements of the cell can raise. *)
Inductive exn : Type :=
| PandasError (e : error)
| AttributeError
| TypeError.

Inductive try (A : Type) : Type :=
| Fine (a : A)
| Throw (e : exn).
Arguments Fine {A} a.
Arguments Throw {A} e.

Definition and_then {A B} (m : try A) (k : A -> try B) : try B :=
  match m with Fine a => k a | Throw e => Throw e end.

(** [df[name]]: one column; [KeyError] when the frame has none of that
    name. *)
Definition series (df : DataFrame) (name : string) : try column :=
  match lookup_column (columns df) name with
  | Ok c => Fine c
  | Raise e => Throw (PandasError e)
  end.

Definition is_str (c : cell) : bool :=
  match c with Some (VStr _) => true | _ => false end.

Definition is_some {A} (o : option A) : bool :=
  match o with Some _ => true | None => false end.

(** The occurrences of one character in a string. *)
Fixpoint count_char (c : Ascii.ascii) (s : string) : nat :=
  match s with
  | EmptyString => 0
  | String a s' => (if Ascii.eqb a c then 1 else 0) + count_char c s'
  end.

(** [.str.count(pat)] for a pattern that is one literal character.  The
    accessor exists on columns of strings only, [AttributeError] on a
    numeric column; a missing cell counts as missing; the counts are
    [int64], or [float64] when one of them is missing. *)
Definition str_count (c : Ascii.ascii) (col : column) : try column :=
  if existsb is_str col then
    let counts :=
      map (fun x => match x with
                    | Some (VStr s) => Some (Z.of_nat (count_char c s))
                    | _ => None
                    end) col in
    Fine (if forallb is_some counts
          then map (option_map VInt) counts
          else map (option_map (fun z => VFloat (float64_of_int z))) counts)
  else Throw AttributeError.

(** [int64] addition wraps around. *)
Definition wrap64 (z : Z) : Z := ((z + 2 ^ 63) mod 2 ^ 64 - 2 ^ 63)%Z.

(** [col + k] for an integer [k]: [int64] cells add with wrap-around,
    [float64] cells holding a whole number add and round, missing cells stay
    missing; a string cell raises [TypeError]. *)
Definition add_value (k : Z) (v : value) : try value :=
  match v with
  | VInt z => Fine (VInt (wrap64 (z + k)))
  | VFloat x => Fine (VFloat (float64_of_int (F2Z x + k)))
  | VStr _ => Throw TypeError
  end.

Fixpoint add_scalar (k : Z) (col : column) : try column :=
  match col with
  | [] => Fine []
  | None :: col' => and_then (add_scalar k col') (fun r => Fine (None :: r))
  | Some v :: col' =>
      and_then (add_value k v) (fun w =>
      and_then (add_scalar k col') (fun r => Fine (Some w :: r)))
  end.

(** [df[name] = col] for a column on the frame's own index, hence as long
    as the frame, and a frame of distinct column names: the column of that
    name is replaced where it stands, a new name is appended. *)
Fixpoint set_column (cols : list (string * column)) (name : string)
    (col : column) : list (string * column) :=
  match cols with
  | [] => [(name, col)]
  | (n, c) :: rest =>
      if String.eqb n name then (n, col) :: rest
      else (n, c) :: set_column rest name col
  end.

Definition setitem (df : DataFrame) (name : string) (col : column)
  : DataFrame :=
  mkFrame (index df) (set_column (columns df) name col).

(** [commits['word_count'] = commits['message'].str.count(" ")+1] *)
Definition add_word_count (commits : DataFrame) : try DataFrame :=
  and_then (series commits "message") (fun message =>
  and_then (str_count " "%char message) (fun counts =>
  and_then (add_scalar 1 counts) (fun word_count =>
  Fine (setitem commits "word_count" word_count)))).







(** Words put together with single spaces. *)
Fixpoint unwords (ws : list string) : string :=
  match ws with
  | [] => EmptyString
  | [w] => w
  | w :: ws' => (w ++ " " ++ unwords ws')%string
  end.

End CommitLog.

(** ** The git-log notebook: the conversion in one line

    [[
    git_log = pd.read_csv("../../spring-petclinic/git.log", sep="\t",
        header=None,
        names=['additions', 'deletions', 'filename', 'sha', 'timestamp', 'author'])
    git_log[['additions', 'deletions', 'filename']]\
        .join(git_log[['sha', 'timestamp', 'author']]\
        .fillna(method='ffill'))\
        .dropna().head()
    ]] *)

Module OneLiner.
Import Pandas GitLog.

Definition meta_names6 : list string := ["sha"; "timestamp"; "author"].

(** The six-column table [git_log] holding the given lines (their message,
    which this export does not print, left out). *)
Definition git_log (rows : list row) : DataFrame :=
  mkFrame (seq 0 (length rows))
    [ ("additions", map additions rows);
      ("deletions", map deletions rows);
      ("filename", map filename rows);
      ("sha", map sha rows);
      ("timestamp", map timestamp rows);
      ("author", map author rows) ].

(** [git_log[[...]].join(git_log[[...]].fillna(method='ffill')).dropna()] *)
Definition one_liner (git_log : DataFrame) : result DataFrame :=
  files <- getitem git_log file_names ;;
  meta <- getitem git_log meta_names6 ;;
  j <- join files (fillna_ffill meta) ;;
  Ok (dropna j).

(** [head()]: the first five rows. *)
Definition head (df : DataFrame) : DataFrame :=
  mkFrame (firstn 5 (index df))
          (map (fun nc => (fst nc, firstn 5 (snd nc))) (columns df)).

Definition one_liner_head (git_log : DataFrame) : result DataFrame :=
  r <- one_liner git_log ;;
  Ok (head r).

Definition cells6 (r : row) : list cell :=
  [additions r; deletions r; filename r; sha r; timestamp r; author r].

Definition complete6 (r : row) : bool := forallb notna (cells6 r).

Definition frame6_of (irs : list (nat * row)) : DataFrame :=
  mkFrame (map fst irs)
    [ ("additions", map (fun ir => additions (snd ir)) irs);
      ("deletions", map (fun ir => deletions (snd ir)) irs);
      ("filename", map (fun ir => filename (snd ir)) irs);
      ("sha", map (fun ir => sha (snd ir)) irs);
      ("timestamp", map (fun ir => timestamp (snd ir)) irs);
      ("author", map (fun ir => author (snd ir)) irs) ].



End OneLiner.

Import Pandas GitLog.

(** ** Facts about the pandas operations *)

Section ListFacts.
Context {A B : Type}.

Lemma map_nth_seq (g : A -> B) (d : A) (l : list A) :
  map (fun p => g (nth p l d)) (seq 0 (length l)) = map g l.
Proof.
  induction l as [|x l IH]; simpl; [reflexivity|].
  f_equal. rewrite <- seq_shift, map_map. exact IH.
Qed.

Lemma take_mask_map (keep : A -> bool) (f : A -> B) (l : list A) :
  take_mask (map keep l) (map f l) = map f (filter keep l).
Proof.
  induction l as [|x l IH]; simpl; [reflexivity|].
  destruct (keep x); simpl; now rewrite IH.
Qed.
End ListFacts.

Lemma take_mask_seq {A} (keep : A -> bool) (l : list A) (s : nat) :
  take_mask (map keep l) (seq s (length l)) =
  map fst (filter (fun ir => keep (snd ir)) (combine (seq s (length l)) l)).
Proof.
  revert s. induction l as [|x l IH]; intros s; simpl; [reflexivity|].
  destruct (keep x); simpl; now rewrite IH.
Qed.

Lemma filter_combine_snd {A} (keep : A -> bool) (l : list A) (s : nat) :
  map snd (filter (fun ir => keep (snd ir)) (combine (seq s (length l)) l)) =
  filter keep l.
Proof.
  revert s. induction l as [|x l IH]; intros s; simpl; [reflexivity|].
  destruct (keep x); simpl; now rewrite IH.
Qed.

Lemma position_seq (s n l : nat) :
  s <= l < s + n -> position l (seq s n) = Some (l - s).
Proof.
  revert s. induction n as [|n IH]; intros s H; [lia|]. simpl.
  destruct (Nat.eqb_spec s l) as [->|Hne].
  - now rewrite Nat.sub_diag.
  - rewrite IH by lia. simpl. f_equal. lia.
Qed.

Lemma reindex_range (c : column) :
  reindex (seq 0 (length c)) c (seq 0 (length c)) = c.
Proof.
  unfold reindex.
  transitivity (map (fun p => nth p c None) (seq 0 (length c))).
  - apply map_ext_in. intros l Hl. apply in_seq in Hl.
    rewrite position_seq by lia. now rewrite Nat.sub_0_r.
  - exact (eq_trans (map_nth_seq (fun x => x) None c) (map_id c)).
Qed.

(** ** The pipeline, row by row *)

Lemma fill_rows_length last rows :
  length (fill_rows last rows) = length rows.
Proof.
  revert last. induction rows as [|r rs IH]; intros last; simpl; auto.
Qed.

(** Forward-filling a column of the table is the column of the filled rows. *)
Lemma ffill_from_column (f : row -> cell) :
  (forall last r, f (fill_meta last r) = fill1 (f last) (f r)) ->
  forall last rows,
    ffill_from (f last) (map f rows) = map f (fill_rows last rows).
Proof.
  intros Hf last rows. revert last.
  induction rows as [|r rs IH]; intros last; simpl; [reflexivity|].
  rewrite <- IH, Hf. reflexivity.
Qed.

Lemma fill_rows_files (f : row -> cell) :
  (forall last r, f (fill_meta last r) = f r) ->
  forall last rows, map f (fill_rows last rows) = map f rows.
Proof.
  intros Hf last rows. revert last.
  induction rows as [|r rs IH]; intros last; simpl; [reflexivity|].
  now rewrite Hf, IH.
Qed.

Lemma reindex_ffill (f : row -> cell) rows :
  f blank = None ->
  (forall last r, f (fill_meta last r) = fill1 (f last) (f r)) ->
  reindex (seq 0 (length rows)) (ffill_from None (map f rows))
          (seq 0 (length rows)) = map f (fill_rows blank rows).
Proof.
  intros Hb Hf. rewrite <- Hb, (ffill_from_column f Hf).
  rewrite <- (fill_rows_length blank rows).
  rewrite <- (length_map f (fill_rows blank rows)).
  apply reindex_range.
Qed.

(** The join of the notebook yields every line, its commit cells filled. *)
Lemma commits_rows rows :
  commits (commits_raw rows) = Ok (commits_raw (fill_rows blank rows)).
Proof.
  unfold commits, commits_raw, getitem, join, fillna_ffill, ffill; simpl.
  rewrite fill_rows_length.
  rewrite !reindex_ffill by reflexivity.
  rewrite (fill_rows_files additions), (fill_rows_files deletions),
    (fill_rows_files filename) by reflexivity.
  reflexivity.
Qed.

Lemma notna_mask_rows rows :
  notna_mask (commits_raw rows) = map complete rows.
Proof.
  unfold notna_mask, commits_raw, row_at; simpl.
  rewrite length_seq.
  rewrite <- (map_nth_seq complete blank rows).
  apply map_ext. intros p. unfold complete, cells.
  now rewrite <- !(map_nth _ rows blank p).
Qed.

(** Dropping the incomplete rows keeps the complete ones, with their
    labels. *)
Lemma dropna_rows rows :
  dropna (commits_raw rows) =
  frame_of (filter (fun ir => complete (snd ir)) (labelled 0 rows)).
Proof.
  unfold dropna. rewrite notna_mask_rows.
  unfold commits_raw, frame_of, labelled; simpl.
  rewrite take_mask_seq, !take_mask_map.
  rewrite <- !(filter_combine_snd complete rows 0), !map_map.
  reflexivity.
Qed.

(** The whole pipeline on the table of the lines. *)
Lemma reconcile_rows rows :
  reconcile (commits_raw rows) = Ok (frame_of (records rows)).
Proof.
  unfold reconcile. rewrite commits_rows. simpl.
  now rewrite dropna_rows.
Qed.

Lemma itertuples_frame_of irs :
  itertuples (frame_of irs) = map (fun ir => (fst ir, cells (snd ir))) irs.
Proof.
  unfold itertuples, frame_of, row_at; simpl.
  rewrite length_map.
  rewrite <- (map_nth_seq (fun ir => (fst ir, cells (snd ir))) (0, blank) irs).
  apply map_ext. intros p. unfold cells.
  rewrite <- (map_nth fst irs (0, blank) p).
  rewrite <- (map_nth (fun ir => additions (snd ir)) irs (0, blank) p).
  rewrite <- (map_nth (fun ir => deletions (snd ir)) irs (0, blank) p).
  rewrite <- (map_nth (fun ir => filename (snd ir)) irs (0, blank) p).
  rewrite <- (map_nth (fun ir => sha (snd ir)) irs (0, blank) p).
  rewrite <- (map_nth (fun ir => timestamp (snd ir)) irs (0, blank) p).
  rewrite <- (map_nth (fun ir => author (snd ir)) irs (0, blank) p).
  rewrite <- (map_nth (fun ir => message (snd ir)) irs (0, blank) p).
  reflexivity.
Qed.

(** *** Line [i] of the joined table *)

Lemma last_valid_fill1 a b col :
  last_valid (fill1 a b :: col) = last_valid (a :: b :: col).
Proof. simpl. destruct (last_valid col), b; reflexivity. Qed.

Lemma last_valid_None col : last_valid (None :: col) = last_valid col.
Proof. simpl. now destruct (last_valid col). Qed.

Lemma nth_fill_rows (f : row -> cell) :
  (forall last r, f (fill_meta last r) = fill1 (f last) (f r)) ->
  forall rows last p, p < length rows ->
    f (nth p (fill_rows last rows) blank) =
    last_valid (f last :: map f (firstn (Datatypes.S p) rows)).
Proof.
  intros Hf. induction rows as [|r rs IH]; intros last p Hp; simpl in Hp; [lia|].
  destruct p as [|p].
  - cbn [fill_rows nth firstn map]. rewrite Hf.
    change (fill1 (f last) (f r)) with (last_valid [fill1 (f last) (f r)]).
    apply last_valid_fill1.
  - cbn [fill_rows nth]. rewrite IH by lia. rewrite Hf.
    rewrite last_valid_fill1. reflexivity.
Qed.

Lemma nth_fill_rows_files (f : row -> cell) :
  (forall last r, f (fill_meta last r) = f r) ->
  forall rows last p, p < length rows ->
    f (nth p (fill_rows last rows) blank) = f (nth p rows blank).
Proof.
  intros Hf. induction rows as [|r rs IH]; intros last p Hp; simpl in Hp; [lia|].
  destruct p as [|p]; simpl; [apply Hf | apply IH; lia].
Qed.

Lemma mkRow_eta r :
  r = mkRow (additions r) (deletions r) (filename r) (sha r) (timestamp r)
            (author r) (message r).
Proof. now destruct r. Qed.

Lemma nth_fill_rows_joined rows p :
  p < length rows -> nth p (fill_rows blank rows) blank = joined rows p.
Proof.
  intros Hp. rewrite (mkRow_eta (nth p (fill_rows blank rows) blank)).
  unfold joined, carried.
  rewrite (nth_fill_rows_files additions), (nth_fill_rows_files deletions),
    (nth_fill_rows_files filename) by (auto; reflexivity).
  rewrite (nth_fill_rows sha), (nth_fill_rows timestamp),
    (nth_fill_rows author), (nth_fill_rows message) by (auto; reflexivity).
  cbn [sha timestamp author message blank]. now rewrite !last_valid_None.
Qed.

Lemma labelled_nth (l : list row) (s : nat) :
  labelled s l = map (fun i => (s + i, nth i l blank)) (seq 0 (length l)).
Proof.
  unfold labelled. revert s.
  induction l as [|x l IH]; intros s; simpl; [reflexivity|].
  rewrite Nat.add_0_r. f_equal.
  rewrite IH, <- seq_shift, map_map.
  apply map_ext. intros i. f_equal. lia.
Qed.

(** The surviving rows are the complete joined rows, in line order. *)
Lemma records_joined rows :
  records rows =
  map (fun i => (i, joined rows i))
      (filter (fun i => complete (joined rows i)) (seq 0 (length rows))).
Proof.
  unfold records, records_from. rewrite labelled_nth, fill_rows_length.
  rewrite filter_map_swap. cbn [snd Nat.add].
  transitivity
    (map (fun i => (i, joined rows i))
       (filter (fun i => complete (nth i (fill_rows blank rows) blank))
               (seq 0 (length rows)))).
  - apply map_ext_in. intros i Hi. apply filter_In in Hi as [Hi _].
    apply in_seq in Hi. now rewrite nth_fill_rows_joined by lia.
  - f_equal. apply filter_ext_in. intros i Hi. apply in_seq in Hi.
    now rewrite nth_fill_rows_joined by lia.
Qed.

(** What [reconcile] returns on the table of the lines: it does return, its
    labels are the lines whose joined row is complete, in line order, and
    the row under each label is that joined row. *)
Lemma reconcile_joined rows :
  exists out,
    reconcile (commits_raw rows) = Ok out /\
    index out =
      filter (fun i => complete (joined rows i)) (seq 0 (length rows)) /\
    map fst (columns out) = file_names ++ meta_names /\
    itertuples out = map (fun i => (i, cells (joined rows i))) (index out).
Proof.
  eexists. split; [apply reconcile_rows|].
  rewrite itertuples_frame_of, records_joined. cbn [index frame_of].
  rewrite !map_map. cbn [fst snd]. rewrite map_id. auto.
Qed.

(** *** Well-formed input: every line is a metadata or a statistic line *)

Lemma notna_last_valid col : notna (last_valid col) = existsb notna col.
Proof.
  induction col as [|x col IH]; simpl; [reflexivity|].
  rewrite <- IH. destruct (last_valid col), x; reflexivity.
Qed.

Lemma firstn_snoc (rows : list row) i :
  i < length rows ->
  firstn (Datatypes.S i) rows = firstn i rows ++ [nth i rows blank].
Proof.
  revert i. induction rows as [|r rs IH]; intros i Hi; simpl in Hi; [lia|].
  destruct i as [|i]; [reflexivity|].
  cbn [firstn nth app]. f_equal. apply IH. lia.
Qed.

Lemma well_formed_cases r :
  well_formed r = true ->
  (exists a b c d, r = M a b c d) \/ (exists a b c, r = S a b c).
Proof.
  destruct r as [[?|] [?|] [?|] [?|] [?|] [?|] [?|]]; cbn; try discriminate;
    intros _; [right | left]; repeat eexists.
Qed.

Lemma notna_carried (f : row -> cell) rows i :
  (forall r, well_formed r = true -> notna (f r) = is_metadata r) ->
  Forall (fun r => well_formed r = true) rows ->
  notna (carried f rows i) =
  existsb is_metadata (firstn (Datatypes.S i) rows).
Proof.
  intros Hf Hwf. unfold carried. rewrite notna_last_valid.
  assert (Hpre : Forall (fun r => well_formed r = true)
                   (firstn (Datatypes.S i) rows))
    by (rewrite <- (firstn_skipn (Datatypes.S i) rows) in Hwf;
        now apply Forall_app in Hwf).
  induction Hpre as [|r l Hr _ IH]; simpl; [reflexivity|].
  now rewrite IH, Hf.
Qed.

Lemma complete_joined_well_formed rows i :
  Forall (fun r => well_formed r = true) rows ->
  i < length rows ->
  complete (joined rows i) = statistic_after_metadata rows i.
Proof.
  intros Hwf Hi. unfold complete, cells, joined, statistic_after_metadata.
  cbn [forallb additions deletions filename sha timestamp author message].
  assert (Hmeta : forall r, well_formed r = true ->
            notna (sha r) = is_metadata r /\ notna (timestamp r) = is_metadata r /\
            notna (author r) = is_metadata r /\ notna (message r) = is_metadata r).
  { intros r Hr. destruct (well_formed_cases r Hr) as [(?&?&?&?&->)|(?&?&?&->)];
      cbn; auto. }
  rewrite (notna_carried sha), (notna_carried timestamp),
    (notna_carried author), (notna_carried message)
    by (auto; intros r Hr; apply (Hmeta r Hr)).
  rewrite firstn_snoc, existsb_app by exact Hi. cbn [existsb].
  assert (Hr : well_formed (nth i rows blank) = true).
  { pose proof (proj1 (Forall_forall _ _) Hwf) as H. apply H, nth_In, Hi. }
  destruct (well_formed_cases _ Hr) as [(?&?&?&?&->)|(?&?&?&->)]; cbn.
  - reflexivity.
  - rewrite !orb_false_r. now destruct (existsb is_metadata (firstn i rows)).
Qed.

Lemma In_itertuples_joined rows out i t :
  reconcile (commits_raw rows) = Ok out ->
  In (i, t) (itertuples out) ->
  i < length rows /\ complete (joined rows i) = true /\
  t = cells (joined rows i).
Proof.
  intros Hout Hin.
  destruct (reconcile_joined rows) as (out' & Hout' & Hidx & _ & Htup).
  rewrite Hout in Hout'. injection Hout' as <-.
  rewrite Htup, Hidx in Hin. apply in_map_iff in Hin as (j & Hj & Hin).
  injection Hj as -> ->. apply filter_In in Hin as [Hin Hc].
  apply in_seq in Hin. repeat split; auto; lia.
Qed.

(** C1: on every sequence of metadata and statistic lines, [reconcile]
    returns exactly one record per statistic line standing after the first
    metadata line: the labels of the output are the positions of those
    lines, in increasing order, and the record under each label carries the
    file fields of the line at that position. *)
Theorem reconcile_one_record_per_statistic_line (rows : list row) :
  Forall (fun r => well_formed r = true) rows ->
  exists out,
    reconcile (commits_raw rows) = Ok out /\
    map fst (itertuples out) =
      filter (statistic_after_metadata rows) (seq 0 (length rows)) /\
    length (itertuples out) =
      length (filter (statistic_after_metadata rows) (seq 0 (length rows))) /\
    (forall i t, In (i, t) (itertuples out) ->
       firstn 3 t = file_cells (nth i rows blank)).
Proof.
  intros Hwf.
  destruct (reconcile_joined rows) as (out & Hout & Hidx & _ & Htup).
  exists out. split; [exact Hout|].
  assert (Hlabels : map fst (itertuples out) =
            filter (statistic_after_metadata rows) (seq 0 (length rows))).
  { rewrite Htup, map_map. cbn [fst]. rewrite map_id, Hidx.
    apply filter_ext_in. intros i Hi. apply in_seq in Hi.
    apply complete_joined_well_formed; [exact Hwf | lia]. }
  split; [exact Hlabels|]. split.
  - now rewrite <- Hlabels, length_map.
  - intros i t Hin.
    destruct (In_itertuples_joined rows out i t Hout Hin) as (_ & _ & ->).
    reflexivity.
Qed.

Lemma reconcile_one_record_per_statistic_line_witness :
  exists out,
    reconcile (commits_raw [S (VInt 1) (VInt 1) (VStr "early.txt");
                            M (VStr "101c9dc") (VInt 1498817227)
                              (VStr "Dave Syer") (VStr "Update");
                            S (VInt 2) (VInt 3) (VStr "pom.xml")]) = Ok out /\
    map fst (itertuples out) = [2] /\
    length (itertuples out) = 1 /\
    (forall i t, In (i, t) (itertuples out) ->
       firstn 3 t =
       file_cells (nth i [S (VInt 1) (VInt 1) (VStr "early.txt");
                          M (VStr "101c9dc") (VInt 1498817227)
                            (VStr "Dave Syer") (VStr "Update");
                          S (VInt 2) (VInt 3) (VStr "pom.xml")] blank)).
Proof.
  apply (reconcile_one_record_per_statistic_line
           [S (VInt 1) (VInt 1) (VStr "early.txt");
            M (VStr "101c9dc") (VInt 1498817227) (VStr "Dave Syer") (VStr "Update");
            S (VInt 2) (VInt 3) (VStr "pom.xml")]).
  repeat constructor.
Defined.

(** *** The carried cell of a column *)

Lemma last_valid_snoc col x :
  last_valid (col ++ [x]) = fill1 (last_valid col) x.
Proof.
  induction col as [|y col IH]; simpl.
  - now destruct x.
  - rewrite IH. destruct x, (last_valid col); reflexivity.
Qed.

Lemma carried_succ f rows i :
  Datatypes.S i < length rows ->
  carried f rows (Datatypes.S i) =
  fill1 (carried f rows i) (f (nth (Datatypes.S i) rows blank)).
Proof.
  intros Hi. unfold carried at 1.
  rewrite firstn_snoc, map_app by exact Hi. apply last_valid_snoc.
Qed.

Lemma carried_own f rows i v :
  i < length rows -> f (nth i rows blank) = Some v ->
  carried f rows i = Some v.
Proof.
  intros Hi Hv. unfold carried.
  rewrite firstn_snoc, map_app by exact Hi. cbn [map].
  now rewrite last_valid_snoc, Hv.
Qed.

(** The carried cell is the cell of the nearest line at or above [i] in
    which the column is valid. *)
Lemma carried_nearest f rows j v d :
  j + d < length rows ->
  f (nth j rows blank) = Some v ->
  (forall k, j < k <= j + d -> f (nth k rows blank) = None) ->
  carried f rows (j + d) = Some v.
Proof.
  induction d as [|d IH]; intros Hlen Hv Hgap.
  - rewrite Nat.add_0_r in *. now apply carried_own.
  - rewrite Nat.add_succ_r in *. rewrite carried_succ by exact Hlen.
    rewrite (Hgap (Datatypes.S (j + d))) by lia. cbn [fill1].
    apply IH; [lia | exact Hv | intros k Hk; apply Hgap; lia].
Qed.

Lemma find_label (g : nat -> list cell) idx i :
  In i idx ->
  find (fun t => Nat.eqb (fst t) i) (map (fun l => (l, g l)) idx) = Some (i, g i).
Proof.
  induction idx as [|l idx IH]; intros Hin; [destruct Hin|]. cbn [map find fst].
  destruct (Nat.eqb_spec l i) as [->|Hne]; [reflexivity|].
  apply IH. destruct Hin; [contradiction | assumption].
Qed.

Lemma find_label_none (g : nat -> list cell) idx i :
  ~ In i idx ->
  find (fun t => Nat.eqb (fst t) i) (map (fun l => (l, g l)) idx) = None.
Proof.
  induction idx as [|l idx IH]; intros Hin; [reflexivity|]. cbn [map find fst].
  destruct (Nat.eqb_spec l i) as [->|Hne]; [destruct Hin; now left|].
  apply IH. intros H. apply Hin. now right.
Qed.

(** The record [reconcile] returns under label [i]. *)
Lemma loc_reconcile rows out i :
  reconcile (commits_raw rows) = Ok out ->
  loc out i =
  if (i <? length rows)%nat && complete (joined rows i)
  then Some (cells (joined rows i)) else None.
Proof.
  intros Hout.
  destruct (reconcile_joined rows) as (out' & Hout' & Hidx & _ & Htup).
  rewrite Hout in Hout'. injection Hout' as <-.
  unfold loc. rewrite Htup, Hidx.
  destruct ((i <? length rows)%nat && complete (joined rows i)) eqn:E.
  - apply andb_prop in E as [Hi Hc]. apply Nat.ltb_lt in Hi.
    rewrite find_label; [reflexivity|].
    apply filter_In. split; [apply in_seq; lia | exact Hc].
  - rewrite find_label_none; [reflexivity|].
    intros Hin. apply filter_In in Hin as [Hin Hc]. apply in_seq in Hin.
    rewrite Hc, andb_true_r in E. apply Nat.ltb_ge in E. lia.
Qed.

(** A line with its three file cells present, below a line with its four
    commit cells present and with no commit cell in between, is returned
    with the commit cells of that line. *)
Lemma reconcile_nearest rows i j :
  j < i < length rows ->
  forallb notna (meta_cells (nth j rows blank)) = true ->
  forallb notna (file_cells (nth i rows blank)) = true ->
  (forall k, j < k <= i -> forallb isna (meta_cells (nth k rows blank)) = true) ->
  exists out,
    reconcile (commits_raw rows) = Ok out /\
    loc out i =
      Some (file_cells (nth i rows blank) ++ meta_cells (nth j rows blank)).
Proof.
  intros Hij Hj Hi Hgap.
  destruct (reconcile_joined rows) as (out & Hout & _).
  exists out. split; [exact Hout|].
  rewrite (loc_reconcile rows out i Hout).
  assert (Hc : forall f, In f [sha; timestamp; author; message] ->
             carried f rows i = f (nth j rows blank) /\
             notna (f (nth j rows blank)) = true).
  { intros f Hf.
    assert (Hv : notna (f (nth j rows blank)) = true).
    { cbn in Hj. repeat (apply andb_prop in Hj as [? Hj]).
      cbn in Hf. intuition (subst; assumption). }
    split; [|exact Hv].
    destruct (f (nth j rows blank)) as [v|] eqn:Ev; [|discriminate].
    replace i with (j + (i - j)) by lia.
    apply carried_nearest; [lia | exact Ev |].
    intros k Hk. specialize (Hgap k ltac:(lia)).
    cbn in Hgap. repeat (apply andb_prop in Hgap as [? Hgap]).
    cbn in Hf.
    destruct Hf as [<-|[<-|[<-|[<-|[]]]]];
      match goal with H : isna ?c = true |- ?c = None =>
        now destruct c end. }
  destruct (Hc sha) as [Es Ns]; [cbn; auto|].
  destruct (Hc timestamp) as [Et Nt]; [cbn; auto|].
  destruct (Hc author) as [Ea Na]; [cbn; auto|].
  destruct (Hc message) as [Em Nm]; [cbn; auto|].
  replace (i <? length rows)%nat with true by (symmetry; apply Nat.ltb_lt; lia).
  unfold complete, cells, joined, file_cells, meta_cells in *.
  cbn [additions deletions filename sha timestamp author message] in *.
  rewrite Es, Et, Ea, Em. cbn [forallb] in *.
  rewrite Ns, Nt, Na, Nm.
  repeat (apply andb_prop in Hi as [? Hi]).
  repeat match goal with H : notna _ = true |- _ => rewrite H; clear H end.
  reflexivity.
Qed.

Lemma metadata_cells r :
  is_metadata r = true ->
  forallb notna (meta_cells r) = true /\ forallb isna (file_cells r) = true.
Proof. unfold is_metadata. intros H. now apply andb_prop in H. Qed.

Lemma statistic_cells r :
  is_statistic r = true ->
  forallb notna (file_cells r) = true /\ forallb isna (meta_cells r) = true.
Proof. unfold is_statistic. intros H. now apply andb_prop in H. Qed.

(** C2: a statistic line that has a metadata line above it is returned
    with its own file fields and with the commit id, timestamp, author and
    message of the nearest metadata line above it, the one from which only
    statistic lines separate it. *)
Theorem reconcile_metadata_of_nearest_preceding_line (rows : list row) (i j : nat) :
  j < i < length rows ->
  is_metadata (nth j rows blank) = true ->
  is_statistic (nth i rows blank) = true ->
  (forall k, j < k < i -> is_statistic (nth k rows blank) = true) ->
  exists out,
    reconcile (commits_raw rows) = Ok out /\
    loc out i =
      Some (file_cells (nth i rows blank) ++ meta_cells (nth j rows blank)).
Proof.
  intros Hij Hj Hi Hgap.
  apply reconcile_nearest; [exact Hij | | |].
  - now apply metadata_cells.
  - now apply statistic_cells.
  - intros k Hk. apply statistic_cells.
    destruct (Nat.eq_dec k i) as [->|Hne]; [exact Hi | apply Hgap; lia].
Qed.

Lemma reconcile_metadata_of_nearest_preceding_line_witness :
  exists out,
    reconcile (commits_raw [M (VStr "101c9dc") (VInt 1498817227)
                              (VStr "Dave Syer") (VStr "Update");
                            M (VStr "ffa967c") (VInt 1492026060)
                              (VStr "Antoine Rey") (VStr "Rename");
                            S (VInt 1) (VInt 1) (VStr "readme.md");
                            S (VInt 2) (VInt 3) (VStr "pom.xml")]) = Ok out /\
    loc out 3 =
      Some [Some (VInt 2); Some (VInt 3); Some (VStr "pom.xml");
            Some (VStr "ffa967c"); Some (VInt 1492026060);
            Some (VStr "Antoine Rey"); Some (VStr "Rename")].
Proof.
  apply (reconcile_metadata_of_nearest_preceding_line
           [M (VStr "101c9dc") (VInt 1498817227) (VStr "Dave Syer") (VStr "Update");
            M (VStr "ffa967c") (VInt 1492026060) (VStr "Antoine Rey") (VStr "Rename");
            S (VInt 1) (VInt 1) (VStr "readme.md");
            S (VInt 2) (VInt 3) (VStr "pom.xml")] 3 1).
  - simpl; lia.
  - reflexivity.
  - reflexivity.
  - intros k Hk. assert (k = 2) as -> by lia. reflexivity.
Defined.

(** *** No missing cell survives [dropna] *)

Lemma take_mask_valid (mask : list bool) (col : column) :
  (forall p, nth p mask false = true -> notna (nth p col None) = true) ->
  Forall (fun c => notna c = true) (take_mask mask col).
Proof.
  revert col. induction mask as [|b mask IH]; intros col H; [constructor|].
  destruct col as [|x col]; [constructor|]. simpl.
  assert (Hrest : Forall (fun c => notna c = true) (take_mask mask col))
    by (apply IH; intros p Hp; exact (H (Datatypes.S p) Hp)).
  destruct b; [constructor; [exact (H 0 eq_refl) | exact Hrest] | exact Hrest].
Qed.

Lemma nth_notna_mask df p :
  nth p (notna_mask df) false = true -> forallb notna (row_at df p) = true.
Proof.
  unfold notna_mask. intros H.
  destruct (Nat.lt_ge_cases p (length (index df))) as [Hp|Hp].
  - rewrite (nth_indep _ false (forallb notna (row_at df 0))) in H
      by now rewrite length_map, length_seq.
    rewrite (map_nth (fun p => forallb notna (row_at df p))) in H.
    now rewrite seq_nth in H.
  - rewrite nth_overflow in H by now rewrite length_map, length_seq.
    discriminate.
Qed.

(** On any frame at all, [dropna] leaves no missing cell in any column. *)
Lemma dropna_valid df name col :
  In (name, col) (columns (dropna df)) ->
  Forall (fun c => notna c = true) col.
Proof.
  unfold dropna. cbn [columns]. intros Hin.
  apply in_map_iff in Hin as ([n c] & Heq & Hin). injection Heq as <- <-.
  apply take_mask_valid. intros p Hp. apply nth_notna_mask in Hp.
  unfold row_at in Hp. rewrite forallb_forall in Hp. apply Hp.
  change (nth p c None) with ((fun nc : string * column => nth p (snd nc) None) (n, c)).
  now apply in_map.
Qed.

(** C3: every record [reconcile] returns has its seven fields, additions,
    deletions, filename, commit id, timestamp, author and message, and none
    of them is missing: no column of the returned frame holds a missing
    cell and no returned row does. *)
Theorem reconcile_records_fully_populated (rows : list row) :
  exists out,
    reconcile (commits_raw rows) = Ok out /\
    map fst (columns out) =
      ["additions"; "deletions"; "filename"; "sha"; "timestamp"; "author";
       "message"] /\
    Forall (fun nc => Forall (fun c => c <> None) (snd nc)) (columns out) /\
    Forall (fun t => length (snd t) = 7 /\ Forall (fun c => c <> None) (snd t))
           (itertuples out).
Proof.
  destruct (reconcile_joined rows) as (out & Hout & _ & Hnames & _).
  exists out. split; [exact Hout|]. split; [exact Hnames|]. split.
  - apply Forall_forall. intros [name col] Hin. cbn [snd].
    unfold reconcile in Hout.
    destruct (commits (commits_raw rows)) as [c|e]; [|discriminate].
    injection Hout as <-. apply dropna_valid in Hin.
    eapply Forall_impl; [|exact Hin]. now intros [v|].
  - apply Forall_forall. intros [i t] Hin.
    destruct (In_itertuples_joined rows out i t Hout Hin) as (_ & Hc & ->).
    split; [reflexivity|]. cbn [snd].
    unfold complete in Hc. rewrite forallb_forall in Hc.
    apply Forall_forall. intros c Hc'. specialize (Hc c Hc'). now destruct c.
Qed.

(** *** Lines above and below a cut *)

Lemma fill1_None x : fill1 None x = x.
Proof. now destruct x. Qed.

Lemma last_valid_app a b :
  last_valid (a ++ b) = fill1 (last_valid a) (last_valid b).
Proof.
  induction a as [|x a IH]; simpl.
  - now destruct (last_valid b).
  - rewrite IH. destruct (last_valid b), (last_valid a); reflexivity.
Qed.

Lemma carried_app f pre rest k :
  carried f (pre ++ rest) (length pre + k) =
  fill1 (last_valid (map f pre)) (carried f rest k).
Proof.
  unfold carried. rewrite <- Nat.add_succ_r, firstn_app_2, map_app.
  apply last_valid_app.
Qed.

Lemma joined_app pre rest k :
  joined (pre ++ rest) (length pre + k) =
  mkRow (additions (nth k rest blank)) (deletions (nth k rest blank))
        (filename (nth k rest blank))
        (fill1 (last_valid (map sha pre)) (carried sha rest k))
        (fill1 (last_valid (map timestamp pre)) (carried timestamp rest k))
        (fill1 (last_valid (map author pre)) (carried author rest k))
        (fill1 (last_valid (map message pre)) (carried message rest k)).
Proof. unfold joined. now rewrite app_nth2_plus, !carried_app. Qed.

Lemma joined_prefix pre rest l :
  l < length pre -> joined (pre ++ rest) l = joined pre l.
Proof.
  intros Hl. unfold joined, carried. rewrite app_nth1 by exact Hl.
  rewrite firstn_app.
  replace (Datatypes.S l - length pre) with 0 by lia.
  now rewrite firstn_0, app_nil_r.
Qed.

Lemma last_valid_all_missing col :
  forallb isna col = true -> last_valid col = None.
Proof.
  induction col as [|x col IH]; simpl; [reflexivity|].
  intros H. apply andb_prop in H as [Hx H]. rewrite (IH H). now destruct x.
Qed.

Lemma last_valid_statistics (f : row -> cell) pre :
  In f [sha; timestamp; author; message] ->
  Forall (fun r => is_statistic r = true) pre ->
  last_valid (map f pre) = None.
Proof.
  intros Hf Hpre. apply last_valid_all_missing.
  induction Hpre as [|r pre Hr _ IH]; [reflexivity|]. cbn [map forallb].
  rewrite IH, andb_true_r. apply statistic_cells in Hr as [_ Hr].
  cbn in Hr. repeat (apply andb_prop in Hr as [? Hr]).
  cbn in Hf. destruct Hf as [<-|[<-|[<-|[<-|[]]]]]; assumption.
Qed.

Lemma incomplete_without_file r :
  forallb isna (file_cells r) = true -> forall c1 c2 c3 c4,
  complete (mkRow (additions r) (deletions r) (filename r) c1 c2 c3 c4) = false.
Proof.
  intros H c1 c2 c3 c4. cbn in H. apply andb_prop in H as [H _].
  unfold complete, cells. cbn. now destruct (additions r).
Qed.

(** C4: statistic lines standing before the first metadata line produce no
    record and do not make [reconcile] fail, and the lines after them are
    still processed: every statistic line below a metadata line is returned,
    under its own label, with its file fields and the commit fields of the
    nearest metadata line above it, and altogether the labels at and below
    the first remaining line carry the records that [reconcile] returns on
    the remaining lines alone, their labels shifted. *)
Theorem reconcile_drops_leading_statistic_lines (pre rest : list row) :
  Forall (fun r => is_statistic r = true) pre ->
  exists out out',
    reconcile (commits_raw (pre ++ rest)) = Ok out /\
    reconcile (commits_raw rest) = Ok out' /\
    (forall i, i < length pre -> loc out i = None) /\
    (forall k, loc out (length pre + k) = loc out' k) /\
    (forall i j, j < i < length rest ->
       is_metadata (nth j rest blank) = true ->
       is_statistic (nth i rest blank) = true ->
       (forall k, j < k < i -> is_statistic (nth k rest blank) = true) ->
       loc out (length pre + i) =
         Some (file_cells (nth i rest blank) ++ meta_cells (nth j rest blank))).
Proof.
  intros Hpre.
  destruct (reconcile_joined (pre ++ rest)) as (out & Hout & _).
  destruct (reconcile_joined rest) as (out' & Hout' & _).
  exists out, out'. split; [exact Hout|]. split; [exact Hout'|].
  assert (Hsame : forall k, joined (pre ++ rest) (length pre + k) = joined rest k).
  { intros k. rewrite joined_app.
    rewrite !last_valid_statistics by (cbn; auto 6 || exact Hpre).
    now rewrite !fill1_None. }
  assert (Hrel : forall k, loc out (length pre + k) = loc out' k).
  { intros k. rewrite (loc_reconcile _ _ _ Hout), (loc_reconcile _ _ _ Hout').
    rewrite Hsame, length_app.
    replace (length pre + k <? length pre + length rest)%nat
      with (k <? length rest)%nat; [reflexivity|].
    destruct (Nat.ltb_spec k (length rest));
      symmetry; [apply Nat.ltb_lt | apply Nat.ltb_ge]; lia. }
  split; [|split; [exact Hrel|]].
  - intros i Hi. rewrite (loc_reconcile _ _ i Hout).
    rewrite joined_prefix by exact Hi.
    assert (Hc : complete (joined pre i) = false).
    { unfold complete, cells, joined.
      cbn [sha additions deletions filename timestamp author message forallb].
      replace (carried sha pre i) with (@None value); [now rewrite !andb_false_r|].
      symmetry. unfold carried. apply last_valid_statistics; [cbn; auto|].
      rewrite <- (firstn_skipn (Datatypes.S i) pre) in Hpre.
      now apply Forall_app in Hpre. }
    rewrite Hc. now rewrite andb_false_r.
  - intros i j Hij Hj Hi Hgap. rewrite Hrel.
    destruct (reconcile_nearest rest i j) as (out'' & Hout'' & Hloc);
      [exact Hij | now apply metadata_cells | now apply statistic_cells | |].
    + intros k Hk. apply statistic_cells.
      destruct (Nat.eq_dec k i) as [->|Hne]; [exact Hi | apply Hgap; lia].
    + rewrite Hout' in Hout''. injection Hout'' as <-. exact Hloc.
Qed.

Lemma reconcile_drops_leading_statistic_lines_witness :
  exists out,
    reconcile (commits_raw [S (VInt 1) (VInt 1) (VStr "early.txt");
                            M (VStr "101c9dc") (VInt 1498817227)
                              (VStr "Dave Syer") (VStr "Update");
                            S (VInt 2) (VInt 3) (VStr "pom.xml")]) = Ok out /\
    loc out 0 = None /\
    loc out 2 =
      Some [Some (VInt 2); Some (VInt 3); Some (VStr "pom.xml");
            Some (VStr "101c9dc"); Some (VInt 1498817227);
            Some (VStr "Dave Syer"); Some (VStr "Update")].
Proof.
  destruct (reconcile_drops_leading_statistic_lines
              [S (VInt 1) (VInt 1) (VStr "early.txt")]
              [M (VStr "101c9dc") (VInt 1498817227) (VStr "Dave Syer")
                 (VStr "Update");
               S (VInt 2) (VInt 3) (VStr "pom.xml")])
    as (out & out' & Hout & _ & Hnone & _ & Hrest).
  - repeat constructor.
  - exists out. split; [exact Hout|]. split.
    + apply Hnone. simpl. lia.
    + apply (Hrest 1 0).
      * simpl. lia.
      * reflexivity.
      * reflexivity.
      * intros k Hk. lia.
Defined.

Lemma carried_below_metadata (f : row -> cell) m rest k :
  In f [sha; timestamp; author; message] ->
  is_metadata m = true ->
  exists v, carried f (m :: rest) k = Some v.
Proof.
  intros Hf Hm.
  assert (Hv : notna (carried f (m :: rest) k) = true).
  { unfold carried. rewrite notna_last_valid. cbn [firstn map existsb].
    apply metadata_cells in Hm as [Hm _]. cbn in Hm.
    repeat (apply andb_prop in Hm as [? Hm]).
    cbn in Hf. destruct Hf as [<-|[<-|[<-|[<-|[]]]]];
      match goal with H : notna ?c = true |- notna ?c || _ = true =>
        now rewrite H end. }
  destruct (carried f (m :: rest) k) as [v|]; [now exists v | discriminate].
Qed.

Lemma joined_below_metadata above m rest k :
  is_metadata m = true ->
  joined (above ++ m :: rest) (length above + k) = joined (m :: rest) k.
Proof.
  intros Hm. rewrite joined_app. unfold joined at 1.
  destruct (carried_below_metadata sha m rest k) as [v1 ->]; [cbn; auto|exact Hm|].
  destruct (carried_below_metadata timestamp m rest k) as [v2 ->]; [cbn; auto|exact Hm|].
  destruct (carried_below_metadata author m rest k) as [v3 ->]; [cbn; auto|exact Hm|].
  destruct (carried_below_metadata message m rest k) as [v4 ->]; [cbn; auto 6|exact Hm|].
  reflexivity.
Qed.

Lemma metadata_line_incomplete rows i :
  is_metadata (nth i rows blank) = true -> complete (joined rows i) = false.
Proof.
  intros Hm. apply metadata_cells in Hm as [_ Hm].
  apply (incomplete_without_file _ Hm).
Qed.

(** C5: no metadata line produces a record of its own.  In a run of
    consecutive metadata lines only the last one is inherited: the
    statistic lines below the run carry the commit fields of its last line,
    and the earlier lines of the run contribute to no record, the output
    being the one [reconcile] returns with only the last line of the run in
    the input, the labels below the run moved up by the length of what was
    removed. *)
Theorem reconcile_last_metadata_line_wins
    (pre run : list row) (m : row) (stats rest : list row) :
  Forall (fun r => is_metadata r = true) run ->
  is_metadata m = true ->
  Forall (fun r => is_statistic r = true) stats ->
  exists out out',
    reconcile (commits_raw (pre ++ run ++ m :: stats ++ rest)) = Ok out /\
    reconcile (commits_raw (pre ++ m :: stats ++ rest)) = Ok out' /\
    (forall i,
       is_metadata (nth i (pre ++ run ++ m :: stats ++ rest) blank) = true ->
       loc out i = None) /\
    (forall k, k < length stats ->
       loc out (length pre + length run + 1 + k) =
       Some (file_cells (nth k stats blank) ++ meta_cells m)) /\
    (forall l, l < length pre -> loc out l = loc out' l) /\
    (forall r, r < length run -> loc out (length pre + r) = None) /\
    (forall k, loc out (length pre + length run + k) = loc out' (length pre + k)).
Proof.
  intros Hrun Hm Hstats.
  set (below := stats ++ rest).
  destruct (reconcile_joined (pre ++ run ++ m :: below)) as (out & Hout & _).
  destruct (reconcile_joined (pre ++ m :: below)) as (out' & Hout' & _).
  exists out, out'. split; [exact Hout|]. split; [exact Hout'|].
  assert (Hmeta : forall i,
            is_metadata (nth i (pre ++ run ++ m :: below) blank) = true ->
            loc out i = None).
  { intros i Hi. rewrite (loc_reconcile _ _ i Hout).
    now rewrite metadata_line_incomplete, andb_false_r. }
  split; [exact Hmeta|]. split; [|split; [|split]].
  - intros k Hk.
    assert (Hnth : forall n,
              nth (length pre + length run + n) (pre ++ run ++ m :: below) blank =
              nth n (m :: below) blank).
    { intros n. rewrite (app_assoc pre run), <- (length_app pre run).
      apply app_nth2_plus. }
    assert (Hst : forall n, n < length stats ->
              nth (length pre + length run + Datatypes.S n)
                  (pre ++ run ++ m :: below) blank = nth n stats blank).
    { intros n Hn. rewrite Hnth. cbn [nth]. unfold below.
      now apply app_nth1. }
    destruct (reconcile_nearest (pre ++ run ++ m :: below)
                (length pre + length run + 1 + k) (length pre + length run))
      as (out1 & Hout1 & Hloc).
    + rewrite !length_app. cbn [length]. unfold below. rewrite length_app. lia.
    + rewrite <- (Nat.add_0_r (length pre + length run)), Hnth. cbn [nth].
      now apply metadata_cells.
    + replace (length pre + length run + 1 + k)
        with (length pre + length run + Datatypes.S k) by lia.
      rewrite Hst by exact Hk. apply statistic_cells.
      apply (proj1 (Forall_forall _ _) Hstats), nth_In, Hk.
    + intros n Hn.
      replace n with (length pre + length run +
                      Datatypes.S (n - (length pre + length run) - 1)) by lia.
      rewrite Hst by lia. apply statistic_cells.
      apply (proj1 (Forall_forall _ _) Hstats), nth_In. lia.
    + rewrite Hout in Hout1. injection Hout1 as <-. rewrite Hloc.
      replace (length pre + length run + 1 + k)
        with (length pre + length run + Datatypes.S k) by lia.
      rewrite Hst by exact Hk.
      rewrite <- (Nat.add_0_r (length pre + length run)) at 1.
      rewrite Hnth. reflexivity.
  - intros l Hl.
    rewrite (loc_reconcile _ _ l Hout), (loc_reconcile _ _ l Hout').
    rewrite !joined_prefix by exact Hl.
    assert (E : (l <? length (pre ++ run ++ m :: below))%nat = true)
      by (apply Nat.ltb_lt; rewrite length_app; lia).
    assert (E' : (l <? length (pre ++ m :: below))%nat = true)
      by (apply Nat.ltb_lt; rewrite length_app; lia).
    now rewrite E, E'.
  - intros r Hr. apply Hmeta.
    rewrite app_nth2_plus, app_nth1 by exact Hr.
    pose proof (proj1 (Forall_forall _ _) Hrun) as H. apply H, nth_In, Hr.
  - intros k.
    rewrite (loc_reconcile _ _ _ Hout), (loc_reconcile _ _ _ Hout').
    rewrite (app_assoc pre run (m :: below)), <- (length_app pre run).
    rewrite !joined_below_metadata by exact Hm.
    assert (E : (length (pre ++ run) + k <?
                 length ((pre ++ run) ++ m :: below))%nat =
                (length pre + k <? length (pre ++ m :: below))%nat).
    { rewrite !length_app.
      destruct (Nat.ltb_spec (length pre + k)
                  (length pre + length (m :: below)));
        [apply Nat.ltb_lt | apply Nat.ltb_ge]; lia. }
    now rewrite E.
Qed.

Lemma reconcile_last_metadata_line_wins_witness :
  exists out out',
    reconcile (commits_raw
      ([] ++ [M (VStr "101c9dc") (VInt 1498817227) (VStr "Dave Syer") (VStr "Update")]
          ++ M (VStr "ffa967c") (VInt 1492026060) (VStr "Antoine Rey") (VStr "Rename")
          :: [S (VInt 1) (VInt 1) (VStr "readme.md")] ++ [])) = Ok out /\
    reconcile (commits_raw
      ([] ++ M (VStr "ffa967c") (VInt 1492026060) (VStr "Antoine Rey") (VStr "Rename")
          :: [S (VInt 1) (VInt 1) (VStr "readme.md")] ++ [])) = Ok out' /\
    (forall i,
       is_metadata
         (nth i ([] ++ [M (VStr "101c9dc") (VInt 1498817227) (VStr "Dave Syer")
                          (VStr "Update")]
                    ++ M (VStr "ffa967c") (VInt 1492026060) (VStr "Antoine Rey")
                         (VStr "Rename")
                    :: [S (VInt 1) (VInt 1) (VStr "readme.md")] ++ []) blank) = true ->
       loc out i = None) /\
    (forall k, k < 1 ->
       loc out (0 + 1 + 1 + k) =
       Some (file_cells (nth k [S (VInt 1) (VInt 1) (VStr "readme.md")] blank) ++
             meta_cells (M (VStr "ffa967c") (VInt 1492026060) (VStr "Antoine Rey")
                           (VStr "Rename")))) /\
    (forall l, l < 0 -> loc out l = loc out' l) /\
    (forall r, r < 1 -> loc out (0 + r) = None) /\
    (forall k, loc out (0 + 1 + k) = loc out' (0 + k)).
Proof.
  apply (reconcile_last_metadata_line_wins []
           [M (VStr "101c9dc") (VInt 1498817227) (VStr "Dave Syer") (VStr "Update")]
           (M (VStr "ffa967c") (VInt 1492026060) (VStr "Antoine Rey") (VStr "Rename"))
           [S (VInt 1) (VInt 1) (VStr "readme.md")] []).
  - repeat constructor.
  - reflexivity.
  - repeat constructor.
Defined.

(** C6: the example of the specification.  On the lines M(1, 100, A, x),
    S(2, 1, f.txt), M(2, 200, B, y), S(5, 0, g.txt), [reconcile] returns the
    two records (2, 1, f.txt, 1, 100, A, x) and (5, 0, g.txt, 2, 200, B, y),
    in that order: cell for cell on the table of those lines, and as equal
    values when the lines are read from the file by [read_csv]. *)
Theorem reconcile_example :
  (exists out,
     reconcile (commits_raw [ M (VInt 1) (VInt 100) (VStr "A") (VStr "x");
                              S (VInt 2) (VInt 1) (VStr "f.txt");
                              M (VInt 2) (VInt 200) (VStr "B") (VStr "y");
                              S (VInt 5) (VInt 0) (VStr "g.txt") ]) = Ok out /\
     map snd (itertuples out) =
       [ [ Some (VInt 2); Some (VInt 1); Some (VStr "f.txt");
           Some (VInt 1); Some (VInt 100); Some (VStr "A"); Some (VStr "x") ];
         [ Some (VInt 5); Some (VInt 0); Some (VStr "g.txt");
           Some (VInt 2); Some (VInt 200); Some (VStr "B"); Some (VStr "y") ] ]) /\
  (exists out t1 t2,
     reconcile (read_csv example_lines) = Ok out /\
     map snd (itertuples out) = [t1; t2] /\
     tuple_eqb t1
       [ Some (VInt 2); Some (VInt 1); Some (VStr "f.txt");
         Some (VInt 1); Some (VInt 100); Some (VStr "A"); Some (VStr "x") ] = true /\
     tuple_eqb t2
       [ Some (VInt 5); Some (VInt 0); Some (VStr "g.txt");
         Some (VInt 2); Some (VInt 200); Some (VStr "B"); Some (VStr "y") ] = true).
Proof.
  split.
  - eexists. split; reflexivity.
  - do 3 eexists. split; [reflexivity|]. split; [reflexivity|].
    split; reflexivity.
Qed.

(** *** Any table at all *)





(** *** Each column is filled on its own *)

Lemma carried_nearest_valid f rows i v :
  i < length rows ->
  carried f rows i = Some v -> nearest_valid f rows i (Some v).
Proof.
  induction i as [|i IH]; intros Hi Hc.
  - exists 0, v. repeat split; auto; [|intros k Hk; lia].
    unfold carried in Hc. rewrite firstn_snoc in Hc by exact Hi.
    cbn in Hc. exact Hc.
  - rewrite carried_succ in Hc by exact Hi.
    destruct (f (nth (Datatypes.S i) rows blank)) as [w|] eqn:Ew; cbn in Hc.
    + injection Hc as ->. exists (Datatypes.S i), v.
      repeat split; auto. intros k Hk; lia.
    + destruct (IH ltac:(lia) Hc) as (j & w & Hj & Hv & Hgap & Hw).
      exists j, w. repeat split; auto.
      intros k Hk. destruct (Nat.eq_dec k (Datatypes.S i)) as [->|Hne];
        [exact Ew | apply Hgap; lia].
Qed.

Lemma loc_nearest_valid rows i out t :
  reconcile (commits_raw rows) = Ok out ->
  loc out i = Some t ->
  i < length rows /\ t = cells (joined rows i) /\
  complete (joined rows i) = true /\
  nearest_valid sha rows i (nth 3 t None) /\
  nearest_valid timestamp rows i (nth 4 t None) /\
  nearest_valid author rows i (nth 5 t None) /\
  nearest_valid message rows i (nth 6 t None).
Proof.
  intros Hout Hloc.
  rewrite (loc_reconcile rows out i Hout) in Hloc.
  destruct ((i <? length rows)%nat && complete (joined rows i)) eqn:E;
    [|discriminate].
  injection Hloc as <-. apply andb_prop in E as [Hi Hc].
  apply Nat.ltb_lt in Hi.
  split; [exact Hi|]. split; [reflexivity|]. split; [exact Hc|].
  unfold complete, cells, joined in Hc.
  cbn [additions deletions filename sha timestamp author message forallb] in Hc.
  repeat (apply andb_prop in Hc as [? Hc]).
  unfold cells, joined.
  cbn [nth additions deletions filename sha timestamp author message].
  repeat split;
    match goal with |- nearest_valid ?f _ _ _ =>
      destruct (carried f rows i) as [v|] eqn:Ev; [|discriminate];
      now apply carried_nearest_valid
    end.
Qed.

(** C10: the forward fill works column by column.  Each of the commit id,
    timestamp, author and message of a returned record is the cell of its
    own column in the nearest line at or above the record's line in which
    that column is valid; so a metadata line with a missing field lets that
    one field through from an earlier line, and one record can hold fields
    of different metadata lines. *)
Theorem reconcile_forward_fill_is_per_column :
  (forall rows i out t,
     reconcile (commits_raw rows) = Ok out ->
     loc out i = Some t ->
     nearest_valid sha rows i (nth 3 t None) /\
     nearest_valid timestamp rows i (nth 4 t None) /\
     nearest_valid author rows i (nth 5 t None) /\
     nearest_valid message rows i (nth 6 t None)) /\
  (exists out,
     reconcile (commits_raw
       [ M (VInt 1) (VInt 100) (VStr "A") (VStr "x");
         S (VInt 2) (VInt 1) (VStr "f.txt");
         mkRow None None None
               (Some (VInt 2)) (Some (VInt 200)) (Some (VStr "B")) None;
         S (VInt 5) (VInt 0) (VStr "g.txt") ]) = Ok out /\
     loc out 3 =
       Some [ Some (VInt 5); Some (VInt 0); Some (VStr "g.txt");
              Some (VInt 2); Some (VInt 200); Some (VStr "B");
              Some (VStr "x") ]).
Proof.
  split.
  - intros rows i out t Hout Hloc.
    now destruct (loc_nearest_valid rows i out t Hout Hloc) as (_ & _ & _ & H).
  - eexists. split; reflexivity.
Qed.

Lemma reconcile_forward_fill_is_per_column_witness :
  nearest_valid sha
    [ M (VInt 1) (VInt 100) (VStr "A") (VStr "x");
      mkRow None None None (Some (VInt 2)) (Some (VInt 200)) (Some (VStr "B")) None;
      S (VInt 5) (VInt 0) (VStr "g.txt") ] 2 (Some (VInt 2)) /\
  nearest_valid timestamp
    [ M (VInt 1) (VInt 100) (VStr "A") (VStr "x");
      mkRow None None None (Some (VInt 2)) (Some (VInt 200)) (Some (VStr "B")) None;
      S (VInt 5) (VInt 0) (VStr "g.txt") ] 2 (Some (VInt 200)) /\
  nearest_valid author
    [ M (VInt 1) (VInt 100) (VStr "A") (VStr "x");
      mkRow None None None (Some (VInt 2)) (Some (VInt 200)) (Some (VStr "B")) None;
      S (VInt 5) (VInt 0) (VStr "g.txt") ] 2 (Some (VStr "B")) /\
  nearest_valid message
    [ M (VInt 1) (VInt 100) (VStr "A") (VStr "x");
      mkRow None None None (Some (VInt 2)) (Some (VInt 200)) (Some (VStr "B")) None;
      S (VInt 5) (VInt 0) (VStr "g.txt") ] 2 (Some (VStr "x")).
Proof.
  exact (proj1 reconcile_forward_fill_is_per_column
           [ M (VInt 1) (VInt 100) (VStr "A") (VStr "x");
             mkRow None None None (Some (VInt 2)) (Some (VInt 200))
                   (Some (VStr "B")) None;
             S (VInt 5) (VInt 0) (VStr "g.txt") ]
           2
           (frame_of [(2, mkRow (Some (VInt 5)) (Some (VInt 0)) (Some (VStr "g.txt"))
                                (Some (VInt 2)) (Some (VInt 200)) (Some (VStr "B"))
                                (Some (VStr "x")))])
           [ Some (VInt 5); Some (VInt 0); Some (VStr "g.txt");
             Some (VInt 2); Some (VInt 200); Some (VStr "B"); Some (VStr "x") ]
           eq_refl eq_refl).
Defined.

(** *** The table as [read_csv] types it *)

Lemma read_csv_typed lines :
  read_csv lines = commits_raw (map (typed lines) lines).
Proof.
  unfold read_csv, commits_raw, infer_types.
  now rewrite length_map, !map_map.
Qed.

Lemma nth_typed lines j :
  nth j (map (typed lines) lines) blank = typed lines (nth j lines no_fields).
Proof. exact (map_nth (typed lines) lines no_fields j). Qed.

Lemma line_cases l :
  is_metadata_line l || is_statistic_line l = true ->
  (is_metadata_line l = true /\ f_additions l = Empty /\
   exists ts, f_timestamp l = Int ts) \/
  (is_statistic_line l = true /\ f_additions l <> Empty /\
   f_timestamp l = Empty).
Proof.
  destruct l as [a d f h t au m]. unfold is_metadata_line, is_statistic_line.
  cbn [f_additions f_deletions f_filename f_sha f_timestamp f_author f_message].
  destruct a, d, f, h, t, au, m; cbn; try discriminate; intros _;
    try (left; repeat split; eexists; reflexivity);
    right; repeat split; discriminate.
Qed.

(** With a statistic line in the file, the timestamp column of metadata and
    statistic lines is read as [float64]. *)
Lemma timestamp_dtype lines i :
  Forall (fun l => is_metadata_line l || is_statistic_line l = true) lines ->
  i < length lines ->
  f_timestamp (nth i lines no_fields) = Empty ->
  infer_dtype (map f_timestamp lines) = Float64.
Proof.
  intros Hwf Hi He. unfold infer_dtype.
  assert (Hint : forallb is_int (map f_timestamp lines) = false).
  { destruct (forallb is_int (map f_timestamp lines)) eqn:E; [|reflexivity].
    rewrite forallb_forall in E.
    specialize (E (f_timestamp (nth i lines no_fields))).
    rewrite He in E. cbn in E. symmetry. apply E, in_map_iff.
    exists (nth i lines no_fields). split; [exact He | now apply nth_In]. }
  rewrite Hint.
  replace (forallb is_numeric (map f_timestamp lines)) with true; [reflexivity|].
  symmetry. apply forallb_forall. intros t Ht.
  apply in_map_iff in Ht as (l & <- & Hl).
  pose proof (proj1 (Forall_forall _ _) Hwf l Hl) as Hwl.
  destruct (line_cases l Hwl) as [(_ & _ & ts & ->)|(_ & _ & ->)]; reflexivity.
Qed.

Lemma float64_of_int_exact ts :
  (Z.abs ts <= 2 ^ 53)%Z -> F2Z (float64_of_int ts) = ts.
Proof.
  intros H. unfold float64_of_int.
  replace (Z.abs ts <=? 2 ^ 53)%Z with true by (symmetry; now apply Z.leb_le).
  unfold F2Z. cbn [Fnum Fexp]. now rewrite Z.pow_0_r, Z.mul_1_r.
Qed.

(** An integer more than 512 above the smallest [int64] is not rounded
    down to it. *)
Lemma float64_of_int_above_min z :
  (- 2 ^ 63 + 512 < z < 2 ^ 63)%Z ->
  (- 2 ^ 63 < F2Z (float64_of_int z))%Z.
Proof.
  intros Hz. unfold float64_of_int.
  destruct (Z.abs z <=? 2 ^ 53)%Z eqn:Ea.
  - unfold F2Z. cbn [Fnum Fexp]. rewrite Z.pow_0_r, Z.mul_1_r. lia.
  - apply Z.leb_gt in Ea. cbv zeta. unfold F2Z. cbn [Fnum Fexp].
    set (a := Z.abs z) in *.
    assert (HL : (53 <= Z.log2 a < 63)%Z).
    { split; [apply Z.log2_le_pow2 | apply Z.log2_lt_pow2]; lia. }
    set (e := (Z.log2 a - 52)%Z) in *.
    rewrite Z.shiftr_div_pow2, !Z.shiftl_mul_pow2, Z.mul_1_l by lia.
    assert (Hp : (2 ^ e = 2 * 2 ^ (e - 1))%Z).
    { rewrite <- Z.pow_succ_r by lia. f_equal. lia. }
    assert (Hh : (0 < 2 ^ (e - 1) <= 512)%Z).
    { split; [apply Z.pow_pos_nonneg; lia|].
      change 512%Z with (2 ^ 9)%Z. apply Z.pow_le_mono_r; lia. }
    set (h := (2 ^ (e - 1))%Z) in *. set (p := (2 ^ e)%Z) in *.
    assert (Hq : (0 <= a / p)%Z) by (apply Z.div_pos; lia).
    pose proof (Z.mul_div_le a p ltac:(lia)) as Hle.
    rewrite (Z.mul_comm p) in Hle.
    set (q := (a / p)%Z) in *.
    assert (Hup : ((q + 1) * p = q * p + p)%Z) by ring.
    assert (Hqp : (0 <= q * p)%Z) by (apply Z.mul_nonneg_nonneg; lia).
    set (q' := if (a - q * p <? h)%Z then q
               else if (h <? a - q * p)%Z then (q + 1)%Z
               else if Z.even q then q else (q + 1)%Z).
    assert (Hq' : (0 <= q' * p /\ (z < 0 -> q' * p < 2 ^ 63))%Z).
    { unfold q'. destruct (a - q * p <? h)%Z eqn:E1; [lia|].
      apply Z.ltb_ge in E1.
      destruct (h <? a - q * p)%Z; [lia|].
      destruct (Z.even q); lia. }
    destruct (Z.sgn_spec z) as [[Hs ->]|[[Hs ->]|[Hs ->]]]; lia.
Qed.

Lemma convert_float_int z :
  (- 2 ^ 63 + 512 < z < 2 ^ 63)%Z ->
  convert Float64 (Int z) = Some (VFloat (float64_of_int z)).
Proof.
  intros Hz. cbn [convert]. cbv zeta.
  pose proof (float64_of_int_above_min z Hz) as Hx.
  destruct (Z.eqb_spec (F2Z (float64_of_int z)) (- 2 ^ 63)); [lia | reflexivity].
Qed.

Lemma convert_missing d t :
  int64_field t -> convert d t = None -> t = Empty.
Proof.
  destruct t as [|z|s]; [reflexivity | | discriminate].
  cbn [int64_field]. intros Hz.
  destruct d; [discriminate | | discriminate].
  now rewrite (convert_float_int z Hz).
Qed.

(** C8, as the code has it: the timestamp of a record is not an [int64].
    The statistic lines leave the timestamp column empty, so [read_csv]
    reads the column as [float64], and [reconcile] carries those cells
    unchanged: when the timestamps of the file fit [int64] (those apart
    that round to its smallest value, which such a column cannot hold),
    the timestamp of every returned record is the [float64] conversion of
    the integer printed on the nearest metadata line above, equal to that
    integer whenever its magnitude is at most [2 ^ 53]. *)
Theorem reconcile_timestamp_is_float64
    (lines : list fields) (out : DataFrame) (i : nat) (t : list cell) :
  Forall (fun l => is_metadata_line l || is_statistic_line l = true) lines ->
  Forall (fun l => int64_field (f_timestamp l)) lines ->
  reconcile (read_csv lines) = Ok out ->
  loc out i = Some t ->
  exists j ts,
    j < i /\
    is_metadata_line (nth j lines no_fields) = true /\
    f_timestamp (nth j lines no_fields) = Int ts /\
    (forall k, j < k <= i -> is_statistic_line (nth k lines no_fields) = true) /\
    nth 4 t None = Some (VFloat (float64_of_int ts)) /\
    ((Z.abs ts <= 2 ^ 53)%Z -> F2Z (float64_of_int ts) = ts).
Proof.
  intros Hwf Hrange Hout Hloc. rewrite read_csv_typed in Hout.
  destruct (loc_nearest_valid _ i out t Hout Hloc)
    as (Hi & _ & Hc & _ & (j & v & Hji & Hv & Hgap & Ht) & _).
  rewrite length_map in Hi.
  assert (Hline : forall k, k < length lines ->
            is_metadata_line (nth k lines no_fields)
            || is_statistic_line (nth k lines no_fields) = true).
  { intros k Hk. apply (proj1 (Forall_forall _ _) Hwf), nth_In, Hk. }
  assert (Hfit : forall k, k < length lines ->
            int64_field (f_timestamp (nth k lines no_fields))).
  { intros k Hk.
    apply (proj1 (Forall_forall _ _) Hrange (nth k lines no_fields)), nth_In, Hk. }
  (* line [i] has its file fields, so it is a statistic line *)
  assert (Hstat : f_timestamp (nth i lines no_fields) = Empty).
  { unfold complete, cells, joined in Hc.
    cbn [additions forallb] in Hc. apply andb_prop in Hc as [Ha _].
    rewrite nth_typed in Ha. cbn [typed additions] in Ha.
    destruct (line_cases _ (Hline i Hi)) as [(_ & Hadd & _)|(_ & _ & He)];
      [|exact He].
    rewrite Hadd in Ha. discriminate. }
  pose proof (timestamp_dtype lines i Hwf Hi Hstat) as Hfloat.
  rewrite nth_typed in Hv. cbn [typed timestamp] in Hv. rewrite Hfloat in Hv.
  assert (Hgap' : forall k, j < k <= i ->
            is_statistic_line (nth k lines no_fields) = true).
  { intros k Hk. specialize (Hgap k Hk).
    rewrite nth_typed in Hgap. cbn [typed timestamp] in Hgap.
    apply convert_missing in Hgap; [|apply Hfit; lia].
    destruct (line_cases _ (Hline k ltac:(lia))) as [(_ & _ & ts & E)|(Hs & _)];
      [congruence | exact Hs]. }
  pose proof (Hfit j ltac:(lia)) as Hj.
  destruct (line_cases _ (Hline j ltac:(lia))) as [(Hm & _ & ts & E)|(_ & _ & E)];
    rewrite E in Hv, Hj; [|discriminate].
  cbn [int64_field] in Hj. rewrite (convert_float_int ts Hj) in Hv.
  injection Hv as <-. exists j, ts.
  assert (j <> i) by (intros ->; congruence).
  repeat split; auto; [lia | apply float64_of_int_exact].
Qed.

Lemma reconcile_timestamp_is_float64_witness :
  exists j ts,
    j < 3 /\
    is_metadata_line (nth j example_lines no_fields) = true /\
    f_timestamp (nth j example_lines no_fields) = Int ts /\
    (forall k, j < k <= 3 ->
       is_statistic_line (nth k example_lines no_fields) = true) /\
    nth 4 [ Some (VFloat (mkFloat 5 0)); Some (VFloat (mkFloat 0 0));
            Some (VStr "g.txt"); Some (VFloat (mkFloat 2 0));
            Some (VFloat (mkFloat 200 0)); Some (VStr "B"); Some (VStr "y") ]
        None = Some (VFloat (float64_of_int ts)) /\
    ((Z.abs ts <= 2 ^ 53)%Z -> F2Z (float64_of_int ts) = ts).
Proof.
  apply (reconcile_timestamp_is_float64 example_lines
           (dropna (mkFrame (seq 0 4)
              [ ("additions", [None; Some (VFloat (mkFloat 2 0)); None;
                               Some (VFloat (mkFloat 5 0))]);
                ("deletions", [None; Some (VFloat (mkFloat 1 0)); None;
                               Some (VFloat (mkFloat 0 0))]);
                ("filename", [None; Some (VStr "f.txt"); None;
                              Some (VStr "g.txt")]);
                ("sha", [Some (VFloat (mkFloat 1 0)); Some (VFloat (mkFloat 1 0));
                         Some (VFloat (mkFloat 2 0)); Some (VFloat (mkFloat 2 0))]);
                ("timestamp", [Some (VFloat (mkFloat 100 0));
                               Some (VFloat (mkFloat 100 0));
                               Some (VFloat (mkFloat 200 0));
                               Some (VFloat (mkFloat 200 0))]);
                ("author", [Some (VStr "A"); Some (VStr "A");
                            Some (VStr "B"); Some (VStr "B")]);
                ("message", [Some (VStr "x"); Some (VStr "x");
                             Some (VStr "y"); Some (VStr "y")]) ]))
           3).
  - repeat constructor.
  - repeat constructor; cbn; lia.
  - reflexivity.
  - reflexivity.
Defined.

(** Beyond [2 ^ 53] the conversion rounds: the next integer is not a
    [binary64] number. *)
Example float64_of_int_rounds :
  F2Z (float64_of_int (2 ^ 53 + 1)) = (2 ^ 53)%Z.
Proof. reflexivity. Qed.

(** The smallest [int64] printed as a timestamp is read as missing: the
    statistic line below it takes the timestamp of the line before. *)
Example reconcile_smallest_timestamp_is_missing :
  exists out t,
    reconcile (read_csv
                 [ mkFields Empty Empty Empty (Int 1) (Int 100)
                            (Text "A") (Text "x");
                   mkFields Empty Empty Empty (Int 2) (Int (- 2 ^ 63))
                            (Text "B") (Text "y");
                   mkFields (Int 5) (Int 0) (Text "g.txt")
                            Empty Empty Empty Empty ]) = Ok out /\
    loc out 2 = Some t /\
    nth 4 t None = Some (VFloat (mkFloat 100 0)).
Proof. eexists. eexists. split; [reflexivity|]. split; reflexivity. Qed.

(** C8 as stated fails: on the example of the specification read from the
    file, the timestamp of the first returned record is the [float64]
    [100.0], not an integer. *)
Lemma reconcile_timestamp_not_int64 :
  exists out t,
    reconcile (read_csv example_lines) = Ok out /\
    In t (itertuples out) /\
    nth 4 (snd t) None = Some (VFloat (mkFloat 100 0)) /\
    forall z, nth 4 (snd t) None <> Some (VInt z).
Proof.
  eexists. eexists. split; [reflexivity|]. split; [left; reflexivity|].
  split; [reflexivity|]. intros z. discriminate.
Qed.

(** ** Facts about the recursive-call query *)

Import CallGraph.

Lemma used_In r p : used r p = true <-> In r p.
Proof.
  unfold used. destruct (in_dec Rel_eq_dec r p); split; auto; discriminate.
Qed.

Lemma used_not_In r p : used r p = false <-> ~ In r p.
Proof.
  unfold used. destruct (in_dec Rel_eq_dec r p); split; auto;
    [discriminate | contradiction].
Qed.

Lemma In_outgoing g ty a r :
  In r (outgoing g ty a) <-> edge g ty a (tgt r) r.
Proof.
  unfold outgoing, edge. rewrite filter_In, andb_true_iff.
  rewrite Nat.eqb_eq, String.eqb_eq. tauto.
Qed.

Lemma In_incoming g ty b r :
  In r (incoming g ty b) <-> edge g ty (src r) b r.
Proof.
  unfold incoming, edge. rewrite filter_In, andb_true_iff.
  rewrite Nat.eqb_eq, String.eqb_eq. tauto.
Qed.

Lemma chain_incl g ty a p b : chain g ty a p b -> incl p (rels g).
Proof.
  revert a. induction p as [|r p IH]; intros a H x Hx; [destruct Hx|].
  destruct H as [(Hr & _) Hp]. destruct Hx as [<-|Hx]; [exact Hr|].
  exact (IH _ Hp x Hx).
Qed.

(** The search finds trails only. *)
Lemma trails_sound fuel g ty :
  forall seen a p e,
    In (p, e) (trails fuel g ty seen a) ->
    p <> [] /\ chain g ty a p e /\ NoDup p /\ (forall x, In x p -> ~ In x seen).
Proof.
  induction fuel as [|fuel IH]; intros seen a p e Hin; [destruct Hin|].
  cbn [trails] in Hin. apply in_flat_map in Hin as (r & Hr & Hin).
  apply In_outgoing in Hr.
  destruct (used r seen) eqn:Eu; [destruct Hin|].
  apply used_not_In in Eu.
  destruct Hin as [Heq|Hin].
  - injection Heq as <- <-. refine (conj _ (conj _ (conj _ _))).
    + discriminate.
    + split; [exact Hr | reflexivity].
    + constructor; [intros [] | constructor].
    + intros x [<-|[]]. exact Eu.
  - apply in_map_iff in Hin as ([p' e'] & Heq & Hin).
    cbn [fst snd] in Heq. injection Heq as <- <-.
    destruct (IH _ _ _ _ Hin) as (_ & Hc & Hnd & Hseen).
    refine (conj _ (conj _ (conj _ _))).
    + discriminate.
    + split; [exact Hr | exact Hc].
    + constructor; [|exact Hnd]. intros Hx. apply (Hseen r Hx). now left.
    + intros x [<-|Hx]; [exact Eu|]. intros Hs. apply (Hseen x Hx). now right.
Qed.

(** The search finds every trail its fuel allows. *)
Lemma trails_complete g ty :
  forall p fuel seen a e,
    p <> [] -> chain g ty a p e -> NoDup p ->
    (forall x, In x p -> ~ In x seen) ->
    length p <= fuel ->
    In (p, e) (trails fuel g ty seen a).
Proof.
  induction p as [|r p IH]; intros fuel seen a e Hne Hc Hnd Hseen Hlen;
    [contradiction|].
  destruct fuel as [|fuel]; [cbn in Hlen; lia|].
  destruct Hc as [Hr Hc]. cbn [trails]. apply in_flat_map.
  exists r. split; [now apply In_outgoing|].
  replace (used r seen) with false
    by (symmetry; apply used_not_In, Hseen; now left).
  destruct p as [|r' p'].
  - cbn in Hc. subst e. now left.
  - right. apply in_map_iff. exists (r' :: p', e). split; [reflexivity|].
    apply IH.
    + discriminate.
    + exact Hc.
    + now inversion Hnd.
    + intros x Hx [<-|Hs].
      * inversion Hnd; contradiction.
      * apply (Hseen x); [now right | exact Hs].
    + cbn in Hlen |- *. lia.
Qed.

(** [-[:ty*]->] yields exactly the non-empty trails. *)
Lemma var_length_trails g ty a p e :
  In (p, e) (var_length g ty a) <-> p <> [] /\ chain g ty a p e /\ NoDup p.
Proof.
  unfold var_length. split.
  - intros H. apply trails_sound in H. tauto.
  - intros (Hne & Hc & Hnd). apply trails_complete; auto.
    apply NoDup_incl_length; [exact Hnd | eapply chain_incl; eauto].
Qed.

Lemma chain_invokes_plus g p :
  forall a b, p <> [] -> chain g "INVOKES" a p b -> invokes_plus g a b.
Proof.
  induction p as [|r p IH]; intros a b Hne Hc; [contradiction|].
  destruct Hc as [Hr Hc]. destruct p as [|r' p'].
  - cbn in Hc. subst b. now apply invokes_once with r.
  - apply invokes_more with (tgt r) r; [exact Hr|].
    apply IH; [discriminate | exact Hc].
Qed.

Lemma chain_types g ty a p b :
  chain g ty a p b -> forall x, In x p -> rtype x = ty.
Proof.
  revert a. induction p as [|r p IH]; intros a H x Hx; [destruct Hx|].
  destruct H as [(_ & Hty & _) Hp]. destruct Hx as [<-|Hx]; [exact Hty|].
  exact (IH _ Hp x Hx).
Qed.

Lemma name_is_eq n s : name_is n s = true <-> name n = Some s.
Proof.
  unfold name_is. destruct (name n) as [x|]; [|split; discriminate].
  rewrite String.eqb_eq. split; [now intros -> | now intros [= ->]].
Qed.

(** The rows of the query are the matches of its pattern. *)
Lemma query_matched g caller dbMethod :
  In (caller, dbMethod) (query g) <-> matched g caller dbMethod.
Proof.
  unfold query, matched. split.
  - intros H.
    apply in_flat_map in H as (m & Hm & H).
    apply in_flat_map in H as ([p e] & Hpe & H).
    apply in_flat_map in H as (r & Hr & H).
    apply in_flat_map in H as (dm & Hdm & H).
    apply in_flat_map in H as (d & Hd & H).
    apply in_flat_map in H as (dc & Hdc & H).
    cbn [fst snd] in H.
    match type of H with In _ (if ?b then _ else _) => destruct b eqn:G end;
      [|destruct H].
    destruct H as [Heq|[]]. injection Heq as <- <-.
    repeat (apply andb_prop in G as [G ?]).
    apply var_length_trails in Hpe as (Hne & Hc & Hnd).
    apply In_outgoing in Hr. apply In_incoming in Hd.
    repeat match goal with
           | H : Nat.eqb _ _ = true |- _ => apply Nat.eqb_eq in H
           | H : negb _ = true |- _ => apply negb_true_iff in H
           | H : name_is _ _ = true |- _ => apply name_is_eq in H
           end.
    subst e.
    exists m, dm, dc, p, r, d.
    repeat match goal with
           | H : used _ _ = false |- _ => apply used_not_In in H
           end.
    replace (tgt r) with (nid dm) in Hr by congruence.
    replace (src d) with (nid dc) in Hd by congruence.
    match goal with H : name dc = Some _ |- _ => rewrite H end.
    repeat split; try assumption; apply Hr || apply Hd.
  - intros (m & dm & dc & p & r & d & Hm & Lm & Hne & Hc & Hnd & Hr & Hrp &
            Hdm & Ldm & Hd & Hdc & Ldc & Hname & -> & ->).
    apply in_flat_map. exists m. split; [exact Hm|].
    apply in_flat_map. exists (p, nid m).
    split; [now apply var_length_trails|].
    apply in_flat_map. exists r. split.
    { apply In_outgoing. destruct Hr as (? & ? & ? & ?). repeat split; auto. }
    apply in_flat_map. exists dm. split; [exact Hdm|].
    apply in_flat_map. exists d. split.
    { apply In_incoming. destruct Hd as (? & ? & ? & ?). repeat split; auto. }
    apply in_flat_map. exists dc. split; [exact Hdc|].
    cbn [fst snd].
    assert (Hdp : ~ In d (r :: p)).
    { intros Hin.
      assert (rtype d = "INVOKES").
      { destruct Hin as [<-|Hin]; [apply Hr | exact (chain_types _ _ _ _ _ Hc d Hin)]. }
      destruct Hd as (_ & Hty & _). rewrite Hty in H. discriminate. }
    rewrite Lm, Ldm, Ldc, Nat.eqb_refl.
    rewrite (proj2 (used_not_In r p) Hrp), (proj2 (used_not_In d (r :: p)) Hdp).
    rewrite (proj2 (name_is_eq dc "Database") Hname).
    replace (nid dm =? tgt r)%nat with true
      by (symmetry; apply Nat.eqb_eq; symmetry; apply Hr).
    replace (nid dc =? src d)%nat with true
      by (symmetry; apply Nat.eqb_eq; symmetry; apply Hd).
    cbn [andb negb]. rewrite Hname. now left.
Qed.

Lemma matched_described g caller dbMethod :
  matched g caller dbMethod -> described g caller dbMethod.
Proof.
  intros (m & dm & dc & p & r & d & Hm & Lm & Hne & Hc & Hnd & Hr & Hrp &
          Hdm & Ldm & Hd & Hdc & Ldc & Hname & -> & ->).
  exists m, dm, dc, r, d.
  repeat split; try assumption; try apply Hr; try apply Hd.
  now apply chain_invokes_plus with p.
Qed.

(** The query on the graph of the notebook's result. *)
Example query_notebook_graph :
  query notebook_graph = [(Some "loadParent", Some "Database.loadThing")].
Proof. reflexivity. Qed.

(** C9, as the code has it: the query returns exactly the matches of its
    pattern, that is the pairs of the description for which the calls that
    lead the method back to itself are pairwise distinct and the call into
    the database method is not one of them; every pair it returns is a
    pair of the description. *)
Theorem query_returns_matches (g : Graph) (caller dbMethod : option string) :
  (In (caller, dbMethod) (query g) <-> matched g caller dbMethod) /\
  (In (caller, dbMethod) (query g) -> described g caller dbMethod).
Proof.
  split; [apply query_matched|].
  intros H. apply matched_described. now apply query_matched.
Qed.

(** C9 as stated fails: a method of the class Database that calls itself at
    one place invokes itself and invokes a Database method, and the query
    does not return it, the one call being needed for both parts of the
    pattern. *)
Lemma query_misses_self_recursive_db :
  described self_recursive_db (Some "loadThing") (Some "Database.loadThing") /\
  ~ In (Some "loadThing", Some "Database.loadThing") (query self_recursive_db).
Proof.
  split.
  - exists (mkNode 1 ["Method"] (Some "loadThing")),
           (mkNode 1 ["Method"] (Some "loadThing")),
           (mkNode 0 ["Class"] (Some "Database")),
           (mkRel 1 1 "INVOKES" 1), (mkRel 0 0 "DECLARES" 1).
    cbn. repeat split; auto.
    all: try (apply invokes_once with (mkRel 1 1 "INVOKES" 1); repeat split).
    all: cbv; auto.
  - intros H. exact H.
Qed.

(** ** Further facts about the git-log pipeline *)

Import CommitLog OneLiner.

(** *** Which frames the pipeline accepts *)

Lemma lookup_column_found cols name :
  In name (map fst cols) -> exists c, lookup_column cols name = Ok c.
Proof.
  induction cols as [|[n c] cols IH]; intros Hin; [destruct Hin|].
  cbn [lookup_column]. destruct (String.eqb_spec n name) as [->|Hne].
  - now exists c.
  - apply IH. destruct Hin as [Heq|Hin]; [contradiction | exact Hin].
Qed.

Lemma lookup_column_missing cols name :
  ~ In name (map fst cols) -> lookup_column cols name = Raise (KeyError name).
Proof.
  induction cols as [|[n c] cols IH]; intros Hin; [reflexivity|].
  cbn [lookup_column]. destruct (String.eqb_spec n name) as [->|Hne].
  - destruct Hin. now left.
  - apply IH. intros H. apply Hin. now right.
Qed.

Lemma select_columns_cases cols names :
  (exists cs, select_columns cols names = Ok cs /\ map fst cs = names /\
              forall n, In n names -> In n (map fst cols)) \/
  (exists n, select_columns cols names = Raise (KeyError n) /\
             In n names /\ ~ In n (map fst cols)).
Proof.
  induction names as [|n ns IH].
  - left. exists []. repeat split. intros n [].
  - cbn [select_columns].
    destruct (in_dec string_dec n (map fst cols)) as [Hin|Hout].
    + destruct (lookup_column_found cols n Hin) as [c ->]. cbn [bind].
      destruct IH as [(cs & -> & Hnames & Hall)|(m & -> & Hm & Hout)].
      * left. exists ((n, c) :: cs). cbn [bind map fst]. rewrite Hnames.
        repeat split. intros x [<-|Hx]; auto.
      * right. exists m. cbn [bind]. repeat split; auto. now right.
    + right. exists n. rewrite (lookup_column_missing cols n Hout).
      repeat split; auto. now left.
Qed.

Lemma names_fillna_ffill df :
  map fst (columns (fillna_ffill df)) = map fst (columns df).
Proof.
  unfold fillna_ffill. cbn [columns]. rewrite map_map. now apply map_ext.
Qed.

Lemma names_dropna df : map fst (columns (dropna df)) = map fst (columns df).
Proof.
  unfold dropna. cbn [columns]. rewrite map_map. now apply map_ext.
Qed.

Lemma names_join l r out :
  join l r = Ok out ->
  map fst (columns out) = map fst (columns l) ++ map fst (columns r).
Proof.
  unfold join. destruct (overlap _ _); [discriminate|].
  intros [= <-]. cbn [columns]. now rewrite map_app, map_map.
Qed.

(** On any frame of distinct column names, the pipeline returns when the
    frame has the seven columns it selects, whatever else the frame holds
    and in whatever order, and the result has those seven columns in the
    pipeline's own order; otherwise it raises [KeyError] on a selected
    column the frame lacks.  It raises nothing else: the two selections
    never share a name. *)
Theorem reconcile_returns_or_key_error (df : DataFrame) :
  proper df ->
  (exists out,
     reconcile df = Ok out /\
     map fst (columns out) = file_names ++ meta_names /\
     forall n, In n (file_names ++ meta_names) -> In n (map fst (columns df))) \/
  (exists n,
     reconcile df = Raise (KeyError n) /\
     In n (file_names ++ meta_names) /\ ~ In n (map fst (columns df))).
Proof.
  intros _. unfold reconcile, commits, getitem.
  destruct (select_columns_cases (columns df) file_names)
    as [(fs & -> & Hf & Hfall)|(n & -> & Hn & Hout)]; cbn [bind].
  - destruct (select_columns_cases (columns df) meta_names)
      as [(ms & -> & Hm & Hmall)|(n & -> & Hn & Hout)]; cbn [bind].
    + left.
      destruct (join (mkFrame (index df) fs)
                     (fillna_ffill (mkFrame (index df) ms))) as [j|e] eqn:Ej.
      * exists (dropna j). split; [reflexivity|]. split.
        -- rewrite names_dropna, (names_join _ _ _ Ej), names_fillna_ffill.
           cbn [columns]. now rewrite Hf, Hm.
        -- intros n Hn. apply in_app_or in Hn as [Hn|Hn]; auto.
      * unfold join in Ej. rewrite names_fillna_ffill in Ej.
        cbn [columns] in Ej. rewrite Hf, Hm in Ej. discriminate.
    + right. exists n. repeat split; auto. apply in_or_app. now right.
  - right. exists n. repeat split; auto. apply in_or_app. now left.
Qed.

Lemma select_columns_ext cols cols' names :
  (forall n, In n names -> lookup_column cols n = lookup_column cols' n) ->
  select_columns cols names = select_columns cols' names.
Proof.
  induction names as [|n ns IH]; intros H; [reflexivity|].
  cbn [select_columns]. rewrite (H n) by now left.
  rewrite IH; [reflexivity|]. intros m Hm. apply H. now right.
Qed.

Lemma reconcile_returns_or_key_error_witness :
  (exists out,
     reconcile (mkFrame [0; 1]
                  [ ("sha", [Some (VInt 1); None]);
                    ("additions", [None; Some (VInt 2)]) ]) = Ok out /\
     map fst (columns out) = file_names ++ meta_names /\
     forall n, In n (file_names ++ meta_names) ->
               In n (map fst [ ("sha", [Some (VInt 1); @None value]);
                               ("additions", [None; Some (VInt 2)]) ])) \/
  (exists n,
     reconcile (mkFrame [0; 1]
                  [ ("sha", [Some (VInt 1); None]);
                    ("additions", [None; Some (VInt 2)]) ]) =
       Raise (KeyError n) /\
     In n (file_names ++ meta_names) /\
     ~ In n (map fst [ ("sha", [Some (VInt 1); @None value]);
                       ("additions", [None; Some (VInt 2)]) ])).
Proof.
  apply (reconcile_returns_or_key_error
           (mkFrame [0; 1]
              [ ("sha", [Some (VInt 1); None]);
                ("additions", [None; Some (VInt 2)]) ])).
  repeat split; cbn [map fst snd columns index length];
    repeat constructor; cbn; intuition (discriminate || lia).
Defined.

(** The result depends on the index and on the seven selected columns only:
    two frames of distinct column names that agree on those give the same
    result, whatever other columns they hold and however their columns are
    ordered. *)
Theorem reconcile_ignores_other_columns (df df' : DataFrame) :
  proper df -> proper df' ->
  index df = index df' ->
  (forall n, In n (file_names ++ meta_names) ->
     lookup_column (columns df) n = lookup_column (columns df') n) ->
  reconcile df = reconcile df'.
Proof.
  intros _ _ Hidx Hcols. unfold reconcile, commits, getitem.
  rewrite (select_columns_ext (columns df) (columns df') file_names),
    (select_columns_ext (columns df) (columns df') meta_names), Hidx;
    [reflexivity | |];
    intros n Hn; apply Hcols, in_or_app; auto.
Qed.

Lemma reconcile_ignores_other_columns_witness :
  reconcile (mkFrame [0; 1]
               [ ("message", [Some (VStr "x"); None]);
                 ("word_count", [Some (VInt 1); None]);
                 ("author", [Some (VStr "A"); None]);
                 ("timestamp", [Some (VInt 100); None]);
                 ("sha", [Some (VInt 1); None]);
                 ("filename", [None; Some (VStr "f.txt")]);
                 ("deletions", [None; Some (VInt 1)]);
                 ("additions", [None; Some (VInt 2)]) ]) =
  reconcile (commits_raw [ M (VInt 1) (VInt 100) (VStr "A") (VStr "x");
                           S (VInt 2) (VInt 1) (VStr "f.txt") ]).
Proof.
  apply reconcile_ignores_other_columns.
  - repeat split; cbn [map fst snd columns index length];
      repeat constructor; cbn; intuition (discriminate || lia).
  - repeat split; cbn [map fst snd columns index length commits_raw];
      repeat constructor; cbn; intuition (discriminate || lia).
  - reflexivity.
  - intros n Hn. cbn in Hn.
    repeat (destruct Hn as [<-|Hn]; [reflexivity|]). destruct Hn.
Defined.

(** *** Running the pipeline on its own result *)

Lemma ffill_from_valid last col :
  forallb notna col = true -> ffill_from last col = col.
Proof.
  revert last. induction col as [|x col IH]; intros last H; [reflexivity|].
  cbn in H. apply andb_prop in H as [Hx H]. cbn [ffill_from].
  destruct x as [v|]; [|discriminate]. now rewrite IH.
Qed.

Lemma position_head_other l l' idx :
  l' <> l -> position l' (l :: idx) = option_map Datatypes.S (position l' idx).
Proof.
  intros Hne. cbn [position].
  destruct (Nat.eqb_spec l l'); [congruence | reflexivity].
Qed.

(** Re-indexing a column on its own index, when the labels are distinct,
    leaves it as it is. *)
Lemma reindex_self idx (c : column) :
  NoDup idx -> length c = length idx -> reindex idx c idx = c.
Proof.
  revert c. induction idx as [|l idx IH]; intros c Hnd Hlen.
  - destruct c; [reflexivity | discriminate].
  - destruct c as [|x c]; [discriminate|].
    inversion Hnd as [|? ? Hl Hnd']; subst.
    unfold reindex. cbn [map]. f_equal.
    + cbn [position]. now rewrite Nat.eqb_refl.
    + transitivity (reindex idx c idx); [|apply IH; cbn in Hlen; auto; lia].
      unfold reindex. apply map_ext_in. intros l' Hl'.
      rewrite position_head_other by (intros ->; contradiction).
      now destruct (position l' idx).
Qed.

Lemma notna_mask_frame_of irs :
  notna_mask (frame_of irs) = map (fun ir => complete (snd ir)) irs.
Proof.
  unfold notna_mask, frame_of, row_at; simpl.
  rewrite length_map.
  rewrite <- (map_nth_seq (fun ir => complete (snd ir)) (0, blank) irs).
  apply map_ext. intros p. unfold complete, cells.
  rewrite <- (map_nth (fun ir => additions (snd ir)) irs (0, blank) p).
  rewrite <- (map_nth (fun ir => deletions (snd ir)) irs (0, blank) p).
  rewrite <- (map_nth (fun ir => filename (snd ir)) irs (0, blank) p).
  rewrite <- (map_nth (fun ir => sha (snd ir)) irs (0, blank) p).
  rewrite <- (map_nth (fun ir => timestamp (snd ir)) irs (0, blank) p).
  rewrite <- (map_nth (fun ir => author (snd ir)) irs (0, blank) p).
  rewrite <- (map_nth (fun ir => message (snd ir)) irs (0, blank) p).
  reflexivity.
Qed.

Lemma dropna_frame_of irs :
  dropna (frame_of irs) = frame_of (filter (fun ir => complete (snd ir)) irs).
Proof.
  unfold dropna. rewrite notna_mask_frame_of.
  unfold frame_of; simpl. now rewrite !take_mask_map.
Qed.

Lemma filter_all {A} (keep : A -> bool) (l : list A) :
  forallb keep l = true -> filter keep l = l.
Proof.
  induction l as [|x l IH]; simpl; [reflexivity|].
  intros H. apply andb_prop in H as [-> H]. now rewrite IH.
Qed.

Lemma forallb_filter {A} (keep : A -> bool) (l : list A) :
  forallb keep (filter keep l) = true.
Proof.
  induction l as [|x l IH]; simpl; [reflexivity|].
  destruct (keep x) eqn:E; simpl; [now rewrite E|exact IH].
Qed.

Lemma column_valid (f : row -> cell) (irs : list (nat * row)) :
  (forall r, complete r = true -> notna (f r) = true) ->
  forallb (fun ir => complete (snd ir)) irs = true ->
  forallb notna (map (fun ir => f (snd ir)) irs) = true.
Proof.
  intros Hf. induction irs as [|ir irs IH]; simpl; [reflexivity|].
  intros H. apply andb_prop in H as [Hc H]. now rewrite (Hf _ Hc), IH.
Qed.

Lemma complete_fields r :
  complete r = true ->
  notna (sha r) = true /\ notna (timestamp r) = true /\
  notna (author r) = true /\ notna (message r) = true.
Proof.
  unfold complete, cells. cbn [forallb]. intros H.
  repeat (apply andb_prop in H as [? H]). auto.
Qed.

(** A table of complete rows under distinct labels goes through the
    pipeline unchanged. *)
Lemma reconcile_frame_of irs :
  NoDup (map fst irs) ->
  forallb (fun ir => complete (snd ir)) irs = true ->
  reconcile (frame_of irs) = Ok (frame_of irs).
Proof.
  intros Hnd Hc.
  unfold reconcile, commits, getitem, join, fillna_ffill, ffill; simpl.
  rewrite !ffill_from_valid
    by (apply column_valid; [intros r Hr; apply (complete_fields r Hr) | exact Hc]).
  rewrite !reindex_self by (auto; now rewrite !length_map).
  f_equal.
  transitivity (frame_of (filter (fun ir => complete (snd ir)) irs));
    [|now rewrite (filter_all _ irs Hc)].
  rewrite <- dropna_frame_of. reflexivity.
Qed.

(** Running the pipeline on its own result returns that result: the cells
    of the notebook can be run again on [commits] without changing it. *)
Theorem reconcile_idempotent (rows : list row) :
  exists out,
    reconcile (commits_raw rows) = Ok out /\ reconcile out = Ok out.
Proof.
  exists (frame_of (records rows)). split; [apply reconcile_rows|].
  apply reconcile_frame_of.
  - rewrite records_joined, map_map. cbn [fst]. rewrite map_id.
    apply NoDup_filter, seq_NoDup.
  - unfold records, records_from. apply forallb_filter.
Qed.

(** *** Order of the records, and lines added below *)

Lemma seq_sorted a n : StronglySorted lt (seq a n).
Proof.
  revert a. induction n as [|n IH]; intros a; cbn [seq]; constructor.
  - apply IH.
  - apply Forall_forall. intros x Hx. apply in_seq in Hx. lia.
Qed.

Lemma filter_sorted (keep : nat -> bool) l :
  StronglySorted lt l -> StronglySorted lt (filter keep l).
Proof.
  induction 1 as [|x l Hs IH Hx]; cbn [filter]; [constructor|].
  destruct (keep x); [|exact IH]. constructor; [exact IH|].
  apply Forall_forall. intros y Hy. apply filter_In in Hy as [Hy _].
  revert y Hy. now apply Forall_forall.
Qed.

(** On any table the records come out in line order, each once: the
    labels returned are strictly increasing line numbers of the input, and
    the record under a label has the file fields of that very line. *)
Theorem reconcile_keeps_line_order (rows : list row) :
  exists out,
    reconcile (commits_raw rows) = Ok out /\
    map fst (itertuples out) = index out /\
    StronglySorted lt (index out) /\
    Forall (fun i => i < length rows) (index out) /\
    Forall (fun t => firstn 3 (snd t) = file_cells (nth (fst t) rows blank))
           (itertuples out).
Proof.
  destruct (reconcile_joined rows) as (out & Hout & Hidx & _ & Htup).
  exists out. split; [exact Hout|]. split; [|split; [|split]].
  - rewrite Htup, map_map. cbn [fst]. apply map_id.
  - rewrite Hidx. apply filter_sorted, seq_sorted.
  - rewrite Hidx. apply Forall_forall. intros i Hi.
    apply filter_In in Hi as [Hi _]. apply in_seq in Hi. lia.
  - rewrite Htup. apply Forall_forall. intros t Ht.
    apply in_map_iff in Ht as (i & <- & _). reflexivity.
Qed.

(** Lines added below change nothing above: the records of a table are the
    first records of the table with more lines appended, and every further
    record belongs to an appended line. *)
Theorem reconcile_appended_lines (rows more : list row) :
  exists out out' later,
    reconcile (commits_raw rows) = Ok out /\
    reconcile (commits_raw (rows ++ more)) = Ok out' /\
    itertuples out' = itertuples out ++ later /\
    Forall (fun t => length rows <= fst t) later.
Proof.
  destruct (reconcile_joined rows) as (out & Hout & Hidx & _ & Htup).
  destruct (reconcile_joined (rows ++ more)) as (out' & Hout' & Hidx' & _ & Htup').
  exists out, out',
    (map (fun i => (i, cells (joined (rows ++ more) i)))
         (filter (fun i => complete (joined (rows ++ more) i))
                 (seq (length rows) (length more)))).
  split; [exact Hout|]. split; [exact Hout'|]. split.
  - rewrite Htup', Hidx', Htup, Hidx, length_app, seq_app, filter_app, map_app.
    cbn [Nat.add]. f_equal.
    rewrite (filter_ext_in (fun i => complete (joined (rows ++ more) i))
                           (fun i => complete (joined rows i))).
    + apply map_ext_in. intros i Hi. apply filter_In in Hi as [Hi _].
      apply in_seq in Hi. now rewrite joined_prefix by lia.
    + intros i Hi. apply in_seq in Hi. now rewrite joined_prefix by lia.
  - apply Forall_forall. intros t Ht. apply in_map_iff in Ht as (i & <- & Hi).
    apply filter_In in Hi as [Hi _]. apply in_seq in Hi. cbn [fst]. lia.
Qed.

(** *** The conversion in one line, on the six-column table *)

Lemma notna_mask_git_log rows :
  notna_mask (git_log rows) = map complete6 rows.
Proof.
  unfold notna_mask, git_log, row_at; simpl.
  rewrite length_seq.
  rewrite <- (map_nth_seq complete6 blank rows).
  apply map_ext. intros p. unfold complete6, cells6.
  rewrite <- (map_nth additions rows blank p), <- (map_nth deletions rows blank p),
    <- (map_nth filename rows blank p), <- (map_nth sha rows blank p),
    <- (map_nth timestamp rows blank p), <- (map_nth author rows blank p).
  reflexivity.
Qed.

Lemma dropna_git_log rows :
  dropna (git_log rows) =
  frame6_of (filter (fun ir => complete6 (snd ir)) (labelled 0 rows)).
Proof.
  unfold dropna. rewrite notna_mask_git_log.
  unfold git_log, frame6_of, labelled; simpl.
  rewrite take_mask_seq, !take_mask_map.
  rewrite <- !(filter_combine_snd complete6 rows 0), !map_map.
  reflexivity.
Qed.

Lemma one_liner_rows rows :
  one_liner (git_log rows) =
  Ok (frame6_of (filter (fun ir => complete6 (snd ir))
                        (labelled 0 (fill_rows blank rows)))).
Proof.
  unfold one_liner, git_log, getitem, join, fillna_ffill, ffill; simpl.
  rewrite !reindex_ffill by reflexivity.
  rewrite <- (fill_rows_files additions) with (last := blank) (rows := rows)
    by reflexivity.
  rewrite <- (fill_rows_files deletions) with (last := blank) (rows := rows)
    by reflexivity.
  rewrite <- (fill_rows_files filename) with (last := blank) (rows := rows)
    by reflexivity.
  rewrite <- (fill_rows_length blank rows).
  f_equal. apply dropna_git_log.
Qed.

Lemma itertuples_frame6_of irs :
  itertuples (frame6_of irs) = map (fun ir => (fst ir, cells6 (snd ir))) irs.
Proof.
  unfold itertuples, frame6_of, row_at; simpl.
  rewrite length_map.
  rewrite <- (map_nth_seq (fun ir => (fst ir, cells6 (snd ir))) (0, blank) irs).
  apply map_ext. intros p. unfold cells6.
  rewrite <- (map_nth fst irs (0, blank) p).
  rewrite <- (map_nth (fun ir => additions (snd ir)) irs (0, blank) p).
  rewrite <- (map_nth (fun ir => deletions (snd ir)) irs (0, blank) p).
  rewrite <- (map_nth (fun ir => filename (snd ir)) irs (0, blank) p).
  rewrite <- (map_nth (fun ir => sha (snd ir)) irs (0, blank) p).
  rewrite <- (map_nth (fun ir => timestamp (snd ir)) irs (0, blank) p).
  rewrite <- (map_nth (fun ir => author (snd ir)) irs (0, blank) p).
  reflexivity.
Qed.

Lemma records6_joined rows :
  filter (fun ir => complete6 (snd ir)) (labelled 0 (fill_rows blank rows)) =
  map (fun i => (i, joined rows i))
      (filter (fun i => complete6 (joined rows i)) (seq 0 (length rows))).
Proof.
  rewrite labelled_nth, fill_rows_length.
  rewrite filter_map_swap. cbn [snd Nat.add].
  transitivity
    (map (fun i => (i, joined rows i))
       (filter (fun i => complete6 (nth i (fill_rows blank rows) blank))
               (seq 0 (length rows)))).
  - apply map_ext_in. intros i Hi. apply filter_In in Hi as [Hi _].
    apply in_seq in Hi. now rewrite nth_fill_rows_joined by lia.
  - f_equal. apply filter_ext_in. intros i Hi. apply in_seq in Hi.
    now rewrite nth_fill_rows_joined by lia.
Qed.

Lemma filter_andb {A} (p q : A -> bool) l :
  filter (fun x => p x && q x) l = filter q (filter p l).
Proof.
  induction l as [|x l IH]; simpl; [reflexivity|].
  destruct (p x); simpl; [destruct (q x)|]; now rewrite IH.
Qed.

Lemma complete_complete6 r : complete r = complete6 r && notna (message r).
Proof.
  unfold complete, complete6, cells, cells6. cbn [forallb].
  repeat match goal with
         | |- context [notna ?c] => destruct (notna c); cbn [andb]
         end; reflexivity.
Qed.

(** The one-line conversion of the six-column export keeps every record the
    seven-column pipeline keeps, with the same six fields; the seven-column
    pipeline keeps of them exactly those whose line has a message to carry.
    Both return on every table. *)
Theorem one_liner_and_reconcile (rows : list row) :
  exists out6 out7,
    one_liner (git_log rows) = Ok out6 /\
    reconcile (commits_raw rows) = Ok out7 /\
    map fst (columns out6) =
      ["additions"; "deletions"; "filename"; "sha"; "timestamp"; "author"] /\
    index out7 =
      filter (fun i => notna (carried message rows i)) (index out6) /\
    Forall (fun i => loc out6 i = option_map (firstn 6) (loc out7 i))
           (index out7).
Proof.
  destruct (reconcile_joined rows) as (out7 & Hout7 & Hidx7 & _ & Htup7).
  eexists. exists out7. split; [apply one_liner_rows|].
  split; [exact Hout7|]. rewrite records6_joined. split; [reflexivity|].
  cbn [index frame6_of]. rewrite map_map. cbn [fst]. rewrite map_id. split.
  - rewrite Hidx7, <- filter_andb. apply filter_ext. intros i.
    now rewrite complete_complete6.
  - apply Forall_forall. intros i Hi.
    rewrite (loc_reconcile rows out7 i Hout7).
    rewrite Hidx7 in Hi. apply filter_In in Hi as [Hi Hc].
    apply in_seq in Hi.
    replace (i <? length rows)%nat with true by (symmetry; apply Nat.ltb_lt; lia).
    rewrite Hc. cbn [andb option_map].
    unfold loc. rewrite itertuples_frame6_of, map_map. cbn [fst snd].
    rewrite (find_label (fun l => cells6 (joined rows l))); [reflexivity|].
    apply filter_In. split; [apply in_seq; lia|].
    rewrite complete_complete6 in Hc. now apply andb_prop in Hc.
Qed.

(** *** The lines [read_csv] and the pipeline keep *)









(** ** Facts about the plain log and its word count *)

(** *** Assigning a column *)

Lemma lookup_set_other cols name col other :
  other <> name ->
  lookup_column (set_column cols name col) other = lookup_column cols other.
Proof.
  intros Hne. induction cols as [|[n c] cols IH]; cbn [set_column lookup_column].
  - destruct (String.eqb_spec name other); [congruence | reflexivity].
  - destruct (String.eqb_spec n name) as [->|Hn]; cbn [lookup_column].
    + destruct (String.eqb_spec name other); [congruence | reflexivity].
    + now rewrite IH.
Qed.

Lemma set_column_twice cols name col :
  set_column (set_column cols name col) name col = set_column cols name col.
Proof.
  induction cols as [|[n c] cols IH]; cbn [set_column].
  - now rewrite String.eqb_refl.
  - destruct (String.eqb n name) eqn:E; cbn [set_column]; rewrite E;
      [reflexivity | now rewrite IH].
Qed.

(** Running the word-count statement again on the frame it produced
    changes nothing: the column is computed from the messages anew and
    put back where it stands. *)
Theorem add_word_count_again (df out : DataFrame) :
  add_word_count df = Fine out -> add_word_count out = Fine out.
Proof.
  unfold add_word_count, series. intros H.
  destruct (lookup_column (columns df) "message") as [m|e] eqn:Em;
    [|discriminate]. cbn [and_then] in H.
  destruct (str_count " " m) as [c|e] eqn:Ec; [|discriminate].
  cbn [and_then] in H.
  destruct (add_scalar 1 c) as [w|e] eqn:Ew; [|discriminate].
  cbn [and_then] in H. injection H as <-.
  unfold setitem at 1. cbn [columns].
  rewrite lookup_set_other, Em by discriminate. cbn [and_then].
  rewrite Ec. cbn [and_then]. rewrite Ew. cbn [and_then].
  unfold setitem. cbn [columns index]. now rewrite set_column_twice.
Qed.

Lemma add_word_count_again_witness :
  add_word_count
    (mkFrame [0; 1]
       [ ("message", [Some (VStr "Polish contribution"); None]);
         ("word_count", [Some (VFloat (mkFloat 2 0)); None]) ]) =
  Fine (mkFrame [0; 1]
       [ ("message", [Some (VStr "Polish contribution"); None]);
         ("word_count", [Some (VFloat (mkFloat 2 0)); None]) ]).
Proof.
  apply (add_word_count_again
           (mkFrame [0; 1]
              [ ("message", [Some (VStr "Polish contribution"); None]) ])).
  reflexivity.
Defined.

(** *** Counting spaces *)

Lemma count_char_app c s t :
  count_char c (s ++ t) = count_char c s + count_char c t.
Proof.
  induction s as [|a s IH]; cbn [append count_char]; [reflexivity|].
  rewrite IH. lia.
Qed.


(** The count is one more than the spaces, so it is the number of pieces
    the spaces cut the message into: for words without a space put together
    with single spaces it is the number of words, empty words between
    doubled spaces included. *)
Theorem word_count_of_unwords (ws : list string) :
  ws <> [] ->
  Forall (fun w => count_char " " w = 0) ws ->
  Datatypes.S (count_char " " (unwords ws)) = length ws.
Proof.
  intros Hne Hws. induction Hws as [|w ws Hw Hws IH]; [contradiction|].
  destruct ws as [|w' ws'].
  - cbn [unwords length]. now rewrite Hw.
  - change (unwords (w :: w' :: ws'))
      with (w ++ " " ++ unwords (w' :: ws'))%string.
    rewrite !count_char_app, Hw. cbn [count_char Ascii.eqb Bool.eqb Nat.add].
    cbn [length] in IH |- *. rewrite <- IH by discriminate. cbn. lia.
Qed.

Lemma word_count_of_unwords_witness :
  Datatypes.S (count_char " " (unwords ["Polish"; "contribution"])) = 2.
Proof.
  apply (word_count_of_unwords ["Polish"; "contribution"]).
  - discriminate.
  - repeat constructor.
Defined.

(** *** The cell on a log *)













(** ** Further facts about the forward fill *)

Lemma ffill_from_length last col :
  length (ffill_from last col) = length col.
Proof.
  revert last. induction col as [|x col IH]; intros last; cbn; auto.
Qed.

Lemma ffill_from_twice last col :
  ffill_from last (ffill_from last col) = ffill_from last col.
Proof.
  revert last. induction col as [|x col IH]; intros last; [reflexivity|].
  cbn [ffill_from]. destruct x as [v|]; [now rewrite IH|].
  destruct last as [w|]; now rewrite IH.
Qed.

Lemma ffill_from_valid_stays v col :
  forallb notna (ffill_from (Some v) col) = true.
Proof.
  revert v. induction col as [|x col IH]; intros v; [reflexivity|].
  cbn [ffill_from forallb]. destruct x as [w|]; cbn; apply IH.
Qed.

Lemma ffill_from_source last col c :
  In c (ffill_from last col) -> c = last \/ In c col.
Proof.
  revert last. induction col as [|x col IH]; intros last Hin; [destruct Hin|].
  cbn [ffill_from] in Hin. destruct Hin as [<-|Hin].
  - destruct x; [right; now left | now left].
  - apply IH in Hin as [->|Hin]; [|right; now right].
    destruct x; [right; now left | now left].
Qed.

Lemma ffill_from_keeps last col :
  Forall2 (fun x y => x <> None -> y = x) col (ffill_from last col).
Proof.
  revert last. induction col as [|x col IH]; intros last; [constructor|].
  cbn [ffill_from]. constructor; [|apply IH].
  destruct x; [reflexivity | intros H; now destruct H].
Qed.

Lemma ffill_from_no_gap last col above x below :
  ffill_from last col = above ++ x :: below -> x <> None ->
  Forall (fun c => c <> None) below.
Proof.
  revert last above. induction col as [|y col IH]; intros last above Heq Hx.
  - destruct above; discriminate.
  - cbn [ffill_from] in Heq. destruct above as [|a above].
    + cbn [app] in Heq. injection Heq as Hx' Hb. subst below.
      destruct x as [v|]; [|now destruct Hx].
      rewrite Hx'. pose proof (ffill_from_valid_stays v col) as Hv.
      rewrite forallb_forall in Hv. apply Forall_forall.
      intros c Hc E. subst c. specialize (Hv None Hc). discriminate.
    + cbn [app] in Heq. injection Heq as _ Hb.
      exact (IH _ above Hb Hx).
Qed.

(** The forward fill of a column keeps its length and its valid cells,
    invents no value, leaves no missing cell below a valid one, and filling
    again changes nothing. *)
Theorem ffill_fills_downwards (col : column) :
  length (ffill col) = length col /\
  ffill (ffill col) = ffill col /\
  Forall2 (fun x y => x <> None -> y = x) col (ffill col) /\
  Forall (fun c => c = None \/ In c col) (ffill col) /\
  (forall above x below,
     ffill col = above ++ x :: below -> x <> None ->
     Forall (fun c => c <> None) below).
Proof.
  unfold ffill. split; [apply ffill_from_length|].
  split; [apply ffill_from_twice|]. split; [apply ffill_from_keeps|]. split.
  - apply Forall_forall. intros c Hc.
    apply ffill_from_source in Hc. destruct Hc as [->|Hc]; auto.
  - intros above x below. apply ffill_from_no_gap.
Qed.

(** ** Further facts about the recursive-call query *)

Lemma no_rows {A} (l : list A) : (forall x, ~ In x l) -> l = [].
Proof.
  destruct l as [|x l]; [reflexivity|]. intros H. destruct (H x). now left.
Qed.

(** Without recursion there is no row: when no method invokes itself
    through any chain of calls, the query returns nothing, whatever the
    methods call in the database class. *)
Theorem query_needs_recursion (g : Graph) :
  (forall a, ~ invokes_plus g a a) -> query g = [].
Proof.
  intros H. apply no_rows. intros [caller dbMethod] Hin.
  apply query_matched, matched_described in Hin.
  destruct Hin as (m & _ & _ & _ & _ & _ & _ & Hplus & _).
  exact (H _ Hplus).
Qed.

Lemma query_needs_recursion_witness : query plain_graph = [].
Proof.
  apply query_needs_recursion. intros a H.
  assert (Hedge : forall x y r, edge plain_graph "INVOKES" x y r ->
                                x = 3 /\ y = 1).
  { intros x y r (Hin & Hty & <- & <-). cbn in Hin.
    destruct Hin as [<-|[<-|[<-|[]]]]; cbn in Hty; try discriminate.
    now split. }
  inversion H as [x y r He|x y z r He Hp]; subst.
  - apply Hedge in He. lia.
  - apply Hedge in He. destruct He as [-> ->].
    inversion Hp as [x y r' He'|x y z r' He' _]; subst;
      apply Hedge in He'; lia.
Defined.

(** A method that calls itself directly and calls a method of the class
    Database at another place is returned, with that method's qualified
    name. *)
Theorem query_finds_direct_recursion
    (g : Graph) (m dm dc : Node) (r0 r d : Rel) :
  In m (nodes g) -> has_label "Method" m = true ->
  edge g "INVOKES" (nid m) (nid m) r0 ->
  edge g "INVOKES" (nid m) (nid dm) r -> r <> r0 ->
  In dm (nodes g) -> has_label "Method" dm = true ->
  edge g "DECLARES" (nid dc) (nid dm) d ->
  In dc (nodes g) -> has_label "Class" dc = true ->
  name dc = Some "Database" ->
  In (name m, plus (Some "Database.") (name dm)) (query g).
Proof.
  intros Hm Lm H0 Hr Hne Hdm Ldm Hd Hdc Ldc Hname.
  apply query_matched. exists m, dm, dc, [r0], r, d.
  assert (Ht : tgt r0 = nid m) by apply H0.
  repeat match goal with |- _ /\ _ => split end; auto.
  - discriminate.
  - cbn [chain]. rewrite Ht. split; [exact H0 | reflexivity].
  - constructor; [intros [] | constructor].
  - intros [E|[]]. now apply Hne.
Qed.

Lemma query_finds_direct_recursion_witness :
  In (Some "loadParent", Some "Database.loadThing") (query notebook_graph).
Proof.
  apply (query_finds_direct_recursion notebook_graph
           (mkNode 3 ["Method"] (Some "loadParent"))
           (mkNode 1 ["Method"] (Some "loadThing"))
           (mkNode 0 ["Class"] (Some "Database"))
           (mkRel 2 3 "INVOKES" 3) (mkRel 3 3 "INVOKES" 1)
           (mkRel 0 0 "DECLARES" 1));
    try reflexivity; try discriminate;
    try (repeat split; cbn; auto 6); cbn; auto 6.
Defined.

Lemma edge_incl g g' ty a b r :
  incl (rels g) (rels g') -> edge g ty a b r -> edge g' ty a b r.
Proof. intros Hi (Hin & H). split; [now apply Hi | exact H]. Qed.

Lemma chain_incl_graph g g' ty p :
  incl (rels g) (rels g') ->
  forall a b, chain g ty a p b -> chain g' ty a p b.
Proof.
  intros Hi. induction p as [|r p IH]; intros a b H; [exact H|].
  destruct H as [Hr Hp]. split; [now apply edge_incl with g | now apply IH].
Qed.

(** The query only gains rows when the graph grows: every row returned on
    a graph is returned on any graph that holds its nodes and
    relationships and more. *)
Theorem query_monotone (g g' : Graph) (row : option string * option string) :
  incl (nodes g) (nodes g') -> incl (rels g) (rels g') ->
  In row (query g) -> In row (query g').
Proof.
  intros Hn Hr Hin. destruct row as [caller dbMethod].
  apply query_matched. apply query_matched in Hin.
  destruct Hin as (m & dm & dc & p & r & d & Hm & Lm & Hne & Hc & Hnd & He &
                   Hrp & Hdm & Ldm & Hd & Hdc & Ldc & Hname & E1 & E2).
  exists m, dm, dc, p, r, d.
  repeat match goal with |- _ /\ _ => split end; auto.
  - now apply chain_incl_graph with g.
  - now apply edge_incl with g.
  - now apply edge_incl with g.
Qed.

Lemma query_monotone_witness :
  In (Some "loadParent", Some "Database.loadThing")
     (query (mkGraph (nodes notebook_graph)
                     (mkRel 4 1 "INVOKES" 3 :: rels notebook_graph))).
Proof.
  apply (query_monotone notebook_graph).
  - intros x Hx. exact Hx.
  - intros x Hx. right. exact Hx.
  - left. reflexivity.
Defined.

(** Only a class named exactly Database counts: on a graph none of whose
    classes has that very name the query returns nothing, recursion or
    not. *)
Theorem query_needs_class_named_database (g : Graph) :
  (forall dc, In dc (nodes g) -> has_label "Class" dc = true ->
              name dc <> Some "Database") ->
  query g = [].
Proof.
  intros H. apply no_rows. intros [caller dbMethod] Hin.
  apply query_matched in Hin.
  destruct Hin as (m & dm & dc & p & r & d & _ & _ & _ & _ & _ & _ & _ & _ &
                   _ & _ & Hdc & Ldc & Hname & _).
  exact (H dc Hdc Ldc Hname).
Qed.

Lemma query_needs_class_named_database_witness : query renamed_graph = [].
Proof.
  apply query_needs_class_named_database. intros dc Hdc Ldc.
  cbn in Hdc. destruct Hdc as [<-|[<-|[<-|[<-|[]]]]]; cbn in Ldc |- *;
    discriminate.
Defined.

(** What a row holds: the caller is the name of a node labelled Method,
    and the other column, when it is not null, is the name of a node
    labelled Method behind the prefix [Database.]. *)
Theorem query_rows (g : Graph) (caller dbMethod : option string) :
  In (caller, dbMethod) (query g) ->
  (exists m, In m (nodes g) /\ has_label "Method" m = true /\
             caller = name m) /\
  (exists dm, In dm (nodes g) /\ has_label "Method" dm = true /\
              dbMethod = option_map (String.append "Database.") (name dm)) /\
  (forall s, dbMethod = Some s -> String.prefix "Database." s = true).
Proof.
  intros Hin. apply query_matched in Hin.
  destruct Hin as (m & dm & dc & p & r & d & Hm & Lm & _ & _ & _ & _ & _ &
                   Hdm & Ldm & _ & _ & _ & _ & -> & ->).
  split; [now exists m|].
  assert (E : plus (Some "Database.") (name dm) =
              option_map (String.append "Database.") (name dm))
    by now destruct (name dm).
  rewrite E. split; [now exists dm|].
  intros s Hs. destruct (name dm) as [n|]; [|discriminate].
  injection Hs as <-. cbn. now destruct n.
Qed.

Lemma query_rows_witness :
  (exists m, In m (nodes notebook_graph) /\ has_label "Method" m = true /\
             Some "loadParent" = name m) /\
  (exists dm, In dm (nodes notebook_graph) /\ has_label "Method" dm = true /\
              Some "Database.loadThing" =
              option_map (String.append "Database.") (name dm)) /\
  (forall s, Some "Database.loadThing" = Some s ->
             String.prefix "Database." s = true).
Proof.
  apply (query_rows notebook_graph). left. reflexivity.
Defined.
